(** * AppCarro backend: angle utilities, spherical geometry, calibration
      and point reconstruction

    Shallow embedding of [backend/AppCarro_backend.py].

    Two layers are given.

    - The top level models Python's [float] by the real numbers: [+], [-],
      [*], [/], [math.sqrt], [math.sin], [math.cos] are the real
      operations, [a % 360.0] is the floored remainder and [math.atan2] is
      the two-argument arctangent with [atan2(0, 0) = 0].  All the
      trigonometric statements live here.

    - Module [F64] models the angle utilities and the forward transform on
      binary64 numbers.  [wrap360] and [wrap180] are built from IEEE-754
      operations only, with CPython's algorithm for [%] on floats, and
      compute.  [mean_angle_deg] and [calc_xyz_from_angles] also call the C
      library ([math.sin], [math.cos], [math.atan2]), which IEEE-754 does
      not fix: there the three functions are parameters, and a statement
      names the values it needs of them. *)

From Stdlib Require Import Floats.
From Stdlib Require Import Reals Lra Lia ZArith List String Bool Ascii.
From Stdlib Require Import Permutation.
Import ListNotations.

Set Warnings "-inexact-float".

(** ** Exceptions and outcomes *)

Inductive exn : Type :=
| ValueError (msg : string)
| FileNotFoundError (msg : string).

Inductive result (A : Type) : Type :=
| Ok (a : A)
| Raise (e : exn).

Arguments Ok {A} a.
Arguments Raise {A} e.

Definition is_ok {A : Type} (r : result A) : bool :=
  match r with Ok _ => true | Raise _ => false end.

(** ** Binary64 layer *)

Module F64.
Local Open Scope float_scope.

(** C's [fmod] on doubles: the remainder of the truncated division, exact,
    with the sign of the dividend. *)
Definition fmod (x y : float) : float :=
  match Prim2SF x, Prim2SF y with
  | S754_nan, _ | _, S754_nan => nan
  | S754_infinity _, _ => nan
  | _, S754_zero _ => nan
  | S754_zero _, _ => x
  | S754_finite _ _ _, S754_infinity _ => x
  | S754_finite sx mx ex, S754_finite _ my ey =>
      let e := Z.min ex ey in
      let r := ((Zpos mx * 2 ^ (ex - e)) mod (Zpos my * 2 ^ (ey - e)))%Z in
      SF2Prim (binary_normalize prec emax (if sx then (- r)%Z else r) e sx)
  end.

Definition copysign (x y : float) : float :=
  if get_sign y then - abs x else abs x.

(** CPython's [float_rem], the [%] of two floats, for a divisor that is
    not zero (the program only ever divides by the literal [360.0]). *)
Definition float_rem (vx wx : float) : float :=
  let md := fmod vx wx in
  if negb (md =? 0) then
    if xorb (wx <? 0) (md <? 0) then md + wx else md
  else copysign 0 wx.

Definition wrap360 (a : float) : float :=
  let a := float_rem a 360 in
  if 0 <=? a then a else a + 360.

Definition wrap180 (a : float) : float :=
  float_rem (a + 180) 360 - 180.

(** [math.pi] *)
Definition pi : float := 3.141592653589793.

Definition d2r (deg : float) : float := deg * pi / 180.

Definition r2d (rad : float) : float := rad * 180 / pi.

(** The dictionaries with keys "X", "Y", "Z". *)
Record Coord : Type := mkCoord { pX : float; pY : float; pZ : float }.

(** The expression [math.sqrt(dx*dx + dy*dy + dz*dz)] of [calibrate]. *)
Definition dist_geom (cam pt : Coord) : float :=
  let dx := pX pt - pX cam in
  let dy := pY pt - pY cam in
  let dz := pZ pt - pZ cam in
  PrimFloat.sqrt (dx * dx + dy * dy + dz * dz).

(** The functions that call the C library, for any [sin], [cos] and
    [atan2] on doubles. *)
Section Libm.
Variables sin cos : float -> float.
Variable atan2 : float -> float -> float.

Definition mean_angle_step (sc : float * float) (a : float) : float * float :=
  let ar := d2r a in
  (fst sc + sin ar, snd sc + cos ar).

Definition mean_angle_deg (angles_deg : list float) : float :=
  let sc := fold_left mean_angle_step angles_deg (0, 0) in
  let s := fst sc in
  let c := snd sc in
  if (abs s <? 1e-12) && (abs c <? 1e-12) then 0
  else wrap360 (r2d (atan2 s c)).

Definition calc_xyz_from_angles (cam : Coord) (ah_deg av_deg dist : float)
  : float * float * float :=
  let ah_r := d2r ah_deg in
  let av_r := d2r av_deg in
  let dh := dist * cos av_r in
  let dz := dist * sin av_r in
  let dx := dh * sin ah_r in
  let dy := dh * cos ah_r in
  let x := pX cam + dx in
  let y := pY cam + dy in
  let z := pZ cam + dz in
  (x, y, z).
End Libm.

(** The tuple returned by [calc_xyz_from_angles], as a point. *)
Definition point_of (xyz : float * float * float) : Coord :=
  let '(x, y, z) := xyz in {| pX := x; pY := y; pZ := z |}.

(** The values of the C library that [mean_angle_deg] goes through on the
    lists [0.0, 360.0] and [90.0, 270.0], as glibc returns them. *)
Definition libm_values (sin cos : float -> float)
    (atan2 : float -> float -> float) : Prop :=
  sin (d2r 0) = 0 /\ cos (d2r 0) = 1 /\
  sin (d2r 90) = 1 /\ cos (d2r 90) = 6.123233995736766e-17 /\
  sin (d2r 270) = -1 /\ cos (d2r 270) = -1.8369701987210297e-16 /\
  sin (d2r 360) = -2.4492935982947064e-16 /\ cos (d2r 360) = 1 /\
  atan2 (-2.4492935982947064e-16) 2 = -1.2246467991473532e-16.

(** Functions that take these values, given by their tables. *)
Definition table (t : list (float * float)) (x : float) : float :=
  match find (fun p => fst p =? x) t with
  | Some p => snd p
  | None => nan
  end.

Definition sin_sample : float -> float :=
  table [(d2r 0, 0); (d2r 90, 1); (d2r 270, -1);
         (d2r 360, -2.4492935982947064e-16)].

Definition cos_sample : float -> float :=
  table [(d2r 0, 1); (d2r 90, 6.123233995736766e-17);
         (d2r 270, -1.8369701987210297e-16); (d2r 360, 1)].

Definition atan2_sample (y x : float) : float :=
  if (y =? -2.4492935982947064e-16) && (x =? 2)
  then -1.2246467991473532e-16
  else nan.
End F64.

(** ** Geomensura utils, over the reals *)

Local Open Scope R_scope.

Definition d2r (deg : R) : R := deg * PI / 180.

Definition r2d (rad : R) : R := rad * 180 / PI.

(** Python's [vx % wx] on exact numbers: [vx - wx * floor (vx / wx)]. *)
Definition float_rem (vx wx : R) : R := vx - wx * IZR (Int_part (vx / wx)).

Definition wrap360 (a : R) : R :=
  let a := float_rem a 360 in
  if Rle_dec 0 a then a else a + 360.

Definition wrap180 (a : R) : R := float_rem (a + 180) 360 - 180.

(** [math.atan2 y x]: the angle of the vector [(x, y)] in (-PI, PI], and 0
    for the null vector. *)
Definition atan2 (y x : R) : R :=
  if Rlt_dec 0 x then atan (y / x)
  else if Rlt_dec x 0 then
    if Rle_dec 0 y then atan (y / x) + PI else atan (y / x) - PI
  else if Rlt_dec 0 y then PI / 2
  else if Rlt_dec y 0 then - (PI / 2)
  else 0.

Definition hypot (x y : R) : R := sqrt (x * x + y * y).

(** The loop of [mean_angle_deg]: the running sums [(s, c)]. *)
Definition mean_angle_step (sc : R * R) (a : R) : R * R :=
  let ar := d2r a in
  (fst sc + sin ar, snd sc + cos ar).

Definition mean_angle_deg (angles_deg : list R) : R :=
  let sc := fold_left mean_angle_step angles_deg (0, 0) in
  let s := fst sc in
  let c := snd sc in
  match Rlt_dec (Rabs s) 1e-12, Rlt_dec (Rabs c) 1e-12 with
  | left _, left _ => 0
  | _, _ => wrap360 (r2d (atan2 s c))
  end.

(** The dictionaries with keys "X", "Y", "Z". *)
Record Coord : Type := mkCoord { pX : R; pY : R; pZ : R }.

(** [parse_num], for a value that is a number within the range of
    [float] ([Some x]) or [None]: the first two branches of the source.
    The values of the last branch (strings, which the source parses) and
    the integers beyond the range of [float] are outside the model. *)
Definition parse_num (v : option R) : result R :=
  match v with
  | Some x => Ok x
  | None => Raise (ValueError "Valor numérico vacío")
  end.

Definition azimut_xy (cam pt : Coord) : R :=
  let dx := pX pt - pX cam in
  let dy := pY pt - pY cam in
  wrap360 (r2d (atan2 dx dy)).

Definition inclinacion (cam pt : Coord) : R :=
  let dx := pX pt - pX cam in
  let dy := pY pt - pY cam in
  let dz := pZ pt - pZ cam in
  let dh := hypot dx dy in
  r2d (atan2 dz dh).

Definition calc_xyz_from_angles (cam : Coord) (ah_deg av_deg dist : R)
  : R * R * R :=
  let ah_r := d2r ah_deg in
  let av_r := d2r av_deg in
  let dh := dist * cos av_r in
  let dz := dist * sin av_r in
  let dx := dh * sin ah_r in
  let dy := dh * cos ah_r in
  let x := pX cam + dx in
  let y := pY cam + dy in
  let z := pZ cam + dz in
  (x, y, z).

(** The tuple returned by [calc_xyz_from_angles], as a point. *)
Definition point_of (xyz : R * R * R) : Coord :=
  let '(x, y, z) := xyz in {| pX := x; pY := y; pZ := z |}.

(** ** Configuration *)

Record ColPoint : Type := mkColPoint {
  name : string;
  xyz :> Coord;
  AH_obs : R;
  AV_obs : R;
  D_obs : option R
}.

Record Config : Type := mkConfig {
  camera : Coord;
  collimation_points : list ColPoint
}.

(** ** Calibration core *)

Record Diagnostic : Type := mkDiagnostic {
  d_name : string;
  AH_real : R;
  AV_real : R;
  d_AH_obs : R;
  d_AV_obs : R;
  dAH : R;
  dAV : R;
  Dist_geom : R;
  Dist_obs : R;
  Dist_res : R
}.

Record CalibrationResult : Type := mkCalibrationResult {
  ajuste_ah : R;
  ajuste_av : R;
  diagnostics : list Diagnostic;
  n_points : nat
}.

(** [pt.get("D_obs", 0.0)] *)
Definition get_D_obs (pt : ColPoint) : R :=
  match D_obs pt with Some d => d | None => 0 end.

(** The expression [math.sqrt(dx*dx + dy*dy + dz*dz)] of [calibrate]. *)
Definition dist_geom (cam pt : Coord) : R :=
  let dx := pX pt - pX cam in
  let dy := pY pt - pY cam in
  let dz := pZ pt - pZ cam in
  sqrt (dx * dx + dy * dy + dz * dz).

(** One iteration of the loop over the collimation points: the three lists
    [deltas_ah], [deltas_av], [diagnostics] after the appends. *)
Definition calibrate_step (cam : Coord)
    (acc : list R * list R * list Diagnostic) (pt : ColPoint)
  : list R * list R * list Diagnostic :=
  let '(deltas_ah, deltas_av, diags) := acc in
  let ah_real := azimut_xy cam pt in
  let av_real := inclinacion cam pt in
  let delta_ah := wrap180 (ah_real - AH_obs pt) in
  let delta_av := av_real - AV_obs pt in
  let dg := dist_geom cam pt in
  let dist_res := dg - get_D_obs pt in
  (deltas_ah ++ [delta_ah],
   deltas_av ++ [delta_av],
   diags ++ [ {| d_name := name pt;
                 AH_real := ah_real;
                 AV_real := av_real;
                 d_AH_obs := AH_obs pt;
                 d_AV_obs := AV_obs pt;
                 dAH := delta_ah;
                 dAV := delta_av;
                 Dist_geom := dg;
                 Dist_obs := get_D_obs pt;
                 Dist_res := dist_res |} ]).

(** Python's [sum]. *)
Definition sum (l : list R) : R := fold_left Rplus l 0.

(** The exception [calibrate] raises. *)
Definition insufficient : exn :=
  ValueError "Se requieren al menos 2 puntos de colimación para calibrar.".

Definition calibrate (cfg : Config) : result CalibrationResult :=
  let cam := camera cfg in
  let pts := collimation_points cfg in
  if (List.length pts <? 2)%nat then
    Raise insufficient
  else
    let '(deltas_ah, deltas_av, diags) :=
      fold_left (calibrate_step cam) pts ([], [], []) in
    let deltas_ah_0360 := map wrap360 deltas_ah in
    let ajuste_ah := mean_angle_deg deltas_ah_0360 in
    let ajuste_ah := wrap180 ajuste_ah in
    let ajuste_av := sum deltas_av / INR (List.length deltas_av) in
    Ok {| ajuste_ah := ajuste_ah;
          ajuste_av := ajuste_av;
          diagnostics := diags;
          n_points := List.length pts |}.

(** ** The in-memory cache [STATE] and the routes that use it *)

Record State : Type := mkState {
  st_ajuste_ah : R;
  st_ajuste_av : R;
  st_diagnostics : list Diagnostic;
  st_n_points : option nat;
  loaded : bool
}.

(** The module-level initial value of [STATE]. *)
Definition STATE_init : State :=
  {| st_ajuste_ah := 0;
     st_ajuste_av := 0;
     st_diagnostics := [];
     st_n_points := None;
     loaded := false |}.

(** [STATE.update(cal)] *)
Definition STATE_update (st : State) (cal : CalibrationResult) : State :=
  {| st_ajuste_ah := ajuste_ah cal;
     st_ajuste_av := ajuste_av cal;
     st_diagnostics := diagnostics cal;
     st_n_points := Some (n_points cal);
     loaded := loaded st |}.

(** [STATE["loaded"] = True] *)
Definition STATE_set_loaded (st : State) : State :=
  {| st_ajuste_ah := st_ajuste_ah st;
     st_ajuste_av := st_ajuste_av st;
     st_diagnostics := st_diagnostics st;
     st_n_points := st_n_points st;
     loaded := true |}.

(** What a route can see and change: the configuration file ([None] when
    config.json does not exist) and the cache. *)
Record World : Type := mkWorld {
  disk : option Config;
  STATE : State
}.

(** Computations that read and write the world and may raise.  As in
    Python, what was written before an exception stays written. *)
Definition M (A : Type) : Type := World -> result A * World.

Definition ret {A : Type} (a : A) : M A := fun w => (Ok a, w).

Definition bind {A B : Type} (m : M A) (k : A -> M B) : M B :=
  fun w =>
    match m w with
    | (Ok a, w') => k a w'
    | (Raise e, w') => (Raise e, w')
    end.

Definition lift {A : Type} (r : result A) : M A := fun w => (r, w).

Definition get_STATE : M State := fun w => (Ok (STATE w), w).

Definition modify_STATE (f : State -> State) : M unit :=
  fun w => (Ok tt, {| disk := disk w; STATE := f (STATE w) |}).

Declare Scope route_scope.
Delimit Scope route_scope with route.
Notation "x <- m ;; k" := (bind m (fun x => k))
  (at level 61, m at next level, right associativity) : route_scope.
Notation "m ;; k" := (bind m (fun _ => k))
  (at level 61, right associativity) : route_scope.

Local Open Scope route_scope.

(** [load_config]: the world holds the file as the configuration that
    reading and normalising it returns, so only [FileNotFoundError] is
    raised here; what the normalisation itself raises is the matter of
    [normalize_config] below. *)
Definition load_config : M Config :=
  fun w =>
    match disk w with
    | None => (Raise (FileNotFoundError "No existe config.json"), w)
    | Some cfg => (Ok cfg, w)
    end.

Definition ensure_state : M unit :=
  st <- get_STATE ;;
  if negb (loaded st) then
    cfg <- load_config ;;
    cal <- lift (calibrate cfg) ;;
    modify_STATE (fun s => STATE_update s cal) ;;
    modify_STATE STATE_set_loaded
  else ret tt.

Definition api_calibrate : M CalibrationResult :=
  cfg <- load_config ;;
  cal <- lift (calibrate cfg) ;;
  modify_STATE (fun s => STATE_update s cal) ;;
  modify_STATE STATE_set_loaded ;;
  ret cal.

(** The JSON body of /api/compute: each field a number, or missing or
    null ([None], what [payload.get] returns for a missing key). *)
Record Payload : Type := mkPayload {
  p_AH_obs : option R;
  p_AV_obs : option R;
  p_D_obs : option R
}.

(** The "result" object of /api/compute with the echoed calibration. *)
Record ComputedPoint : Type := mkComputedPoint {
  r_X : R;
  r_Y : R;
  r_Z : R;
  r_AH_obs : R;
  r_AV_obs : R;
  r_D_obs : R;
  AH_corr : R;
  AV_corr : R;
  r_ajuste_ah : R;
  r_ajuste_av : R
}.

Definition api_compute_point (payload : Payload) : M ComputedPoint :=
  ensure_state ;;
  cfg <- load_config ;;
  let cam := camera cfg in
  ah_obs <- lift (parse_num (p_AH_obs payload)) ;;
  av_obs <- lift (parse_num (p_AV_obs payload)) ;;
  dist <- lift (parse_num (p_D_obs payload)) ;;
  st <- get_STATE ;;
  let ah_corr := wrap360 (ah_obs + st_ajuste_ah st) in
  let av_corr := av_obs + st_ajuste_av st in
  let '(x, y, z) := calc_xyz_from_angles cam ah_corr av_corr dist in
  ret {| r_X := x; r_Y := y; r_Z := z;
         r_AH_obs := ah_obs; r_AV_obs := av_obs; r_D_obs := dist;
         AH_corr := ah_corr; AV_corr := av_corr;
         r_ajuste_ah := st_ajuste_ah st;
         r_ajuste_av := st_ajuste_av st |}.

(** ** Auxiliary definitions for the statements *)

(** The sums of sines and of cosines of a list of angles in degrees. *)
Definition sin_sum (angles_deg : list R) : R :=
  sum (map (fun a => sin (d2r a)) angles_deg).

Definition cos_sum (angles_deg : list R) : R :=
  sum (map (fun a => cos (d2r a)) angles_deg).

(** What the loop of [calibrate] computes for one point. *)
Definition residual_ah (cam : Coord) (pt : ColPoint) : R :=
  wrap180 (azimut_xy cam pt - AH_obs pt).

Definition residual_av (cam : Coord) (pt : ColPoint) : R :=
  inclinacion cam pt - AV_obs pt.

Definition diagnostic_of (cam : Coord) (pt : ColPoint) : Diagnostic :=
  {| d_name := name pt;
     AH_real := azimut_xy cam pt;
     AV_real := inclinacion cam pt;
     d_AH_obs := AH_obs pt;
     d_AV_obs := AV_obs pt;
     dAH := residual_ah cam pt;
     dAV := residual_av cam pt;
     Dist_geom := dist_geom cam pt;
     Dist_obs := get_D_obs pt;
     Dist_res := dist_geom cam pt - get_D_obs pt |}.

(** ** Sample data *)

Definition origin : Coord := {| pX := 0; pY := 0; pZ := 0 |}.

Definition station : Coord := {| pX := 1; pY := 2; pZ := 3 |}.

Definition north_100 : Coord := {| pX := 0; pY := 100; pZ := 0 |}.

Definition east_100 : Coord := {| pX := 100; pY := 0; pZ := 0 |}.

(** Two references read 5 degrees high. *)
Definition cfg_offset_5 : Config :=
  {| camera := origin;
     collimation_points :=
       [ {| name := "PT1"; xyz := north_100;
            AH_obs := 5; AV_obs := 0; D_obs := Some 100 |};
         {| name := "PT2"; xyz := east_100;
            AH_obs := 95; AV_obs := 0; D_obs := Some 100 |} ] |}.

(** The end-to-end scenario: two references read 1 degree high. *)
Definition cfg_end_to_end : Config :=
  {| camera := origin;
     collimation_points :=
       [ {| name := "PT1"; xyz := north_100;
            AH_obs := 1; AV_obs := 0; D_obs := Some 100 |};
         {| name := "PT2"; xyz := east_100;
            AH_obs := 91; AV_obs := 0; D_obs := Some 100 |} ] |}.

(** Two references to the north, read at 180 degrees. *)
Definition cfg_half_turn : Config :=
  {| camera := origin;
     collimation_points :=
       [ {| name := "PT1"; xyz := north_100;
            AH_obs := 180; AV_obs := 0; D_obs := Some 100 |};
         {| name := "PT2"; xyz := north_100;
            AH_obs := 180; AV_obs := 0; D_obs := Some 100 |} ] |}.

(** A single reference. *)
Definition cfg_one_point : Config :=
  {| camera := origin;
     collimation_points :=
       [ {| name := "PT1"; xyz := north_100;
            AH_obs := 1; AV_obs := 0; D_obs := Some 100 |} ] |}.

(** A cache holding a published calibration. *)
Definition st_published : State :=
  {| st_ajuste_ah := -1;
     st_ajuste_av := 0;
     st_diagnostics := [];
     st_n_points := Some 2%nat;
     loaded := true |}.

(** ** Definitions for the further properties *)

(** Angles that differ by a whole number of turns. *)
Definition congruent (a b : R) : Prop := exists k : Z, b = a + 360 * IZR k.

(** The sums of sines and cosines of the angles measured from [m]. *)
Definition sin_sum_about (m : R) (angles_deg : list R) : R :=
  sum (map (fun a => sin (d2r (a - m))) angles_deg).

Definition cos_sum_about (m : R) (angles_deg : list R) : R :=
  sum (map (fun a => cos (d2r (a - m))) angles_deg).

(** Two collimation points with the same coordinates and the same readings
    of the angles, the horizontal one up to whole turns; the names and the
    observed distances are free. *)
Definition same_sighting (p q : ColPoint) : Prop :=
  xyz p = xyz q /\ congruent (AH_obs p) (AH_obs q) /\ AV_obs p = AV_obs q.

(** A configuration moved as a whole by the vector [v]. *)
Definition translate (v p : Coord) : Coord :=
  {| pX := pX p + pX v; pY := pY p + pY v; pZ := pZ p + pZ v |}.

Definition translate_point (v : Coord) (pt : ColPoint) : ColPoint :=
  {| name := name pt; xyz := translate v pt;
     AH_obs := AH_obs pt; AV_obs := AV_obs pt; D_obs := D_obs pt |}.

Definition translate_config (v : Coord) (cfg : Config) : Config :=
  {| camera := translate v (camera cfg);
     collimation_points := map (translate_point v) (collimation_points cfg) |}.

(** The two biases of a calibration outcome, when there is one. *)
Definition biases (r : result CalibrationResult) : option (R * R) :=
  match r with
  | Ok cal => Some (ajuste_ah cal, ajuste_av cal)
  | Raise _ => None
  end.

(** The end-to-end scenario with its two references listed the other way
    round. *)
Definition cfg_end_to_end_swapped : Config :=
  {| camera := origin;
     collimation_points :=
       [ {| name := "PT2"; xyz := east_100;
            AH_obs := 91; AV_obs := 0; D_obs := Some 100 |};
         {| name := "PT1"; xyz := north_100;
            AH_obs := 1; AV_obs := 0; D_obs := Some 100 |} ] |}.

(** ** Reading and writing the configuration *)

(** What the routes that take a configuration can raise: the exceptions
    above, and the KeyError of a subscript on a missing key. *)
Inductive raised : Type :=
| Builtin (e : exn)
| KeyError (key : string).

Inductive outcome (A : Type) : Type :=
| Return (a : A)
| Throw (e : raised).

Arguments Return {A} a.
Arguments Throw {A} e.

Definition of_result {A : Type} (r : result A) : outcome A :=
  match r with
  | Ok a => Return a
  | Raise e => Throw (Builtin e)
  end.

(** A member of a JSON object that should hold a number: the key is
    absent, or present with null ([None]) or with a number. *)
Inductive member : Type :=
| Absent
| Present (v : option R).

(** [parse_num(d[key])] *)
Definition required (key : string) (m : member) : outcome R :=
  match m with
  | Absent => Throw (KeyError key)
  | Present v => of_result (parse_num v)
  end.

(** [parse_num(d.get(key, 0.0))] *)
Definition with_default_0 (m : member) : outcome R :=
  match m with
  | Absent => Return 0
  | Present v => of_result (parse_num v)
  end.

(** The "camera" object of a payload or of the file. *)
Record RawCoord : Type := mkRawCoord {
  raw_X : member;
  raw_Y : member;
  raw_Z : member
}.

(** One element of "collimation_points"; the name is a string or absent. *)
Record RawPoint : Type := mkRawPoint {
  raw_name : option string;
  raw_pX : member;
  raw_pY : member;
  raw_pZ : member;
  raw_AH_obs : member;
  raw_AV_obs : member;
  raw_D_obs : member
}.

(** A configuration as it arrives: both members may be absent. *)
Record RawConfig : Type := mkRawConfig {
  raw_camera : option RawCoord;
  raw_points : option (list RawPoint)
}.

(** [str(p.get("name", "")).strip() or "PT"], for any [strip]. *)
Definition normalize_name (strip : string -> string) (n : option string)
  : string :=
  let s := strip (match n with Some s => s | None => EmptyString end) in
  if String.eqb s EmptyString then "PT"%string else s.

(** The dictionary built for one point, its members evaluated in order. *)
Definition normalize_point (strip : string -> string) (p : RawPoint)
  : outcome ColPoint :=
  let nm := normalize_name strip (raw_name p) in
  match required "X" (raw_pX p) with
  | Throw e => Throw e
  | Return x =>
  match required "Y" (raw_pY p) with
  | Throw e => Throw e
  | Return y =>
  match required "Z" (raw_pZ p) with
  | Throw e => Throw e
  | Return z =>
  match required "AH_obs" (raw_AH_obs p) with
  | Throw e => Throw e
  | Return ah =>
  match required "AV_obs" (raw_AV_obs p) with
  | Throw e => Throw e
  | Return av =>
  match with_default_0 (raw_D_obs p) with
  | Throw e => Throw e
  | Return d =>
      Return {| name := nm;
                xyz := {| pX := x; pY := y; pZ := z |};
                AH_obs := ah; AV_obs := av; D_obs := Some d |}
  end end end end end end.

(** The loop over the points: the first point that fails raises. *)
Fixpoint normalize_points (strip : string -> string) (pts : list RawPoint)
  : outcome (list ColPoint) :=
  match pts with
  | [] => Return []
  | p :: rest =>
      match normalize_point strip p with
      | Throw e => Throw e
      | Return pt =>
          match normalize_points strip rest with
          | Throw e => Throw e
          | Return l => Return (pt :: l)
          end
      end
  end.

(** The normalisation to floats that [save_config] and [load_config]
    share: the camera first, then the points. *)
Definition normalize_config (strip : string -> string) (cfg : RawConfig)
  : outcome Config :=
  let cam := match raw_camera cfg with
             | Some c => c
             | None => {| raw_X := Absent; raw_Y := Absent; raw_Z := Absent |}
             end in
  let pts := match raw_points cfg with Some l => l | None => [] end in
  match required "X" (raw_X cam) with
  | Throw e => Throw e
  | Return x =>
  match required "Y" (raw_Y cam) with
  | Throw e => Throw e
  | Return y =>
  match required "Z" (raw_Z cam) with
  | Throw e => Throw e
  | Return z =>
  match normalize_points strip pts with
  | Throw e => Throw e
  | Return l =>
      Return {| camera := {| pX := x; pY := y; pZ := z |};
                collimation_points := l |}
  end end end end.

(** A normalised configuration as the JSON file holds it. *)
Definition raw_of_point (pt : ColPoint) : RawPoint :=
  {| raw_name := Some (name pt);
     raw_pX := Present (Some (pX pt));
     raw_pY := Present (Some (pY pt));
     raw_pZ := Present (Some (pZ pt));
     raw_AH_obs := Present (Some (AH_obs pt));
     raw_AV_obs := Present (Some (AV_obs pt));
     raw_D_obs := match D_obs pt with
                  | Some d => Present (Some d)
                  | None => Absent
                  end |}.

Definition raw_of_config (cfg : Config) : RawConfig :=
  {| raw_camera :=
       Some {| raw_X := Present (Some (pX (camera cfg)));
               raw_Y := Present (Some (pY (camera cfg)));
               raw_Z := Present (Some (pZ (camera cfg))) |};
     raw_points := Some (map raw_of_point (collimation_points cfg)) |}.

(** Routes that may also raise KeyError. *)
Definition Route (A : Type) : Type := World -> outcome A * World.

Definition of_M {A : Type} (m : M A) : Route A :=
  fun w => let '(r, w') := m w in (of_result r, w').

Definition bind_route {A B : Type} (m : Route A) (k : A -> Route B)
  : Route B :=
  fun w =>
    match m w with
    | (Return a, w') => k a w'
    | (Throw e, w') => (Throw e, w')
    end.

(** [save_config]: the whole dictionary is built before the file is opened
    for writing.  The world keeps the file as [load_config] returns it. *)
Definition save_config (strip : string -> string) (cfg : RawConfig)
  : Route unit :=
  fun w =>
    match normalize_config strip cfg with
    | Throw e => (Throw e, w)
    | Return out => (Return tt, {| disk := Some out; STATE := STATE w |})
    end.

Definition api_set_config (strip : string -> string) (payload : RawConfig)
  : Route CalibrationResult :=
  bind_route (save_config strip payload) (fun _ =>
  of_M (bind load_config (fun cfg =>
        bind (lift (calibrate cfg)) (fun cal =>
        bind (modify_STATE (fun s => STATE_update s cal)) (fun _ =>
        bind (modify_STATE STATE_set_loaded) (fun _ =>
        ret cal)))))).

(** The "calibration" object of the answer of GET /api/config. *)
Record CalibrationView : Type := mkCalibrationView {
  v_ajuste_ah : R;
  v_ajuste_av : R;
  v_diagnostics : list Diagnostic;
  v_n_points : nat
}.

Definition api_get_config : M (Config * CalibrationView) :=
  bind load_config (fun cfg =>
  bind ensure_state (fun _ =>
  bind get_STATE (fun st =>
  ret (cfg,
       {| v_ajuste_ah := st_ajuste_ah st;
          v_ajuste_av := st_ajuste_av st;
          v_diagnostics := st_diagnostics st;
          v_n_points := match st_n_points st with
                        | Some n => n
                        | None => 0%nat
                        end |})))).

(** The cache after [STATE.update(cal)] and [STATE["loaded"] = True]. *)
Definition published (cal : CalibrationResult) : State :=
  {| st_ajuste_ah := ajuste_ah cal;
     st_ajuste_av := ajuste_av cal;
     st_diagnostics := diagnostics cal;
     st_n_points := Some (n_points cal);
     loaded := true |}.

(** What can happen to the world: a request is served, the start-up call
    of [ensure_state] runs, or the file is changed from outside. *)
Inductive event : Type :=
| GetConfig
| SetConfig (payload : RawConfig)
| Calibrate
| Compute (payload : Payload)
| Startup
| EditFile (content : option Config).

Definition after (strip : string -> string) (ev : event) (w : World)
  : World :=
  match ev with
  | GetConfig => snd (api_get_config w)
  | SetConfig payload => snd (api_set_config strip payload w)
  | Calibrate => snd (api_calibrate w)
  | Compute payload => snd (api_compute_point payload w)
  | Startup => snd (ensure_state w)
  | EditFile content => {| disk := content; STATE := STATE w |}
  end.

(** The worlds a run of the server goes through, from the module-level
    [STATE] and any file. *)
Definition run (strip : string -> string) (file : option Config)
    (evs : list event) : World :=
  fold_left (fun w ev => after strip ev w) evs
            {| disk := file; STATE := STATE_init |}.


(** How a route leaves the cache: as it was, or freshly published. *)
Definition cache_step (st st' : State) : Prop :=
  st' = st \/ exists cfg cal, calibrate cfg = Ok cal /\ st' = published cal.

(** The cache holds what calibrating the file published, the file being
    as it stood at some moment of the run: after the first events [evs1]
    of [evs]. *)
Definition published_in_run (strip : string -> string)
    (file : option Config) (evs : list event) (st : State) : Prop :=
  exists (evs1 evs2 : list event) (cfg : Config) (cal : CalibrationResult),
    evs = evs1 ++ evs2 /\
    disk (run strip file evs1) = Some cfg /\
    calibrate cfg = Ok cal /\
    st = published cal.

(** The calibration a cache shows through GET /api/config. *)
Definition view_of (st : State) : CalibrationView :=
  {| v_ajuste_ah := st_ajuste_ah st;
     v_ajuste_av := st_ajuste_av st;
     v_diagnostics := st_diagnostics st;
     v_n_points := match st_n_points st with
                   | Some n => n
                   | None => 0%nat
                   end |}.

(** A payload of /api/compute with its three numbers. *)
Definition sighting (ah av d : R) : Payload :=
  {| p_AH_obs := Some ah; p_AV_obs := Some av; p_D_obs := Some d |}.

(** A cache shows the biases of the calibration [cal]. *)
Definition shows (v : CalibrationView) (cal : CalibrationResult) : Prop :=
  v_ajuste_ah v = ajuste_ah cal /\
  v_ajuste_av v = ajuste_av cal /\
  v_diagnostics v = diagnostics cal /\
  v_n_points v = n_points cal.

(** A required member holds a number; an optional one is absent or holds
    a number. *)
Definition holds_number (m : member) : bool :=
  match m with Present (Some _) => true | _ => false end.

Definition absent_or_number (m : member) : bool :=
  match m with Present None => false | _ => true end.

Definition complete_point (p : RawPoint) : bool :=
  holds_number (raw_pX p) && holds_number (raw_pY p)
  && holds_number (raw_pZ p) && holds_number (raw_AH_obs p)
  && holds_number (raw_AV_obs p) && absent_or_number (raw_D_obs p).

Definition complete_config (cfg : RawConfig) : bool :=
  match raw_camera cfg with
  | Some c =>
      holds_number (raw_X c) && holds_number (raw_Y c)
      && holds_number (raw_Z c)
  | None => false
  end
  && forallb complete_point
       (match raw_points cfg with Some l => l | None => [] end).

(** What normalising the file form of a point gives back. *)
Definition renormalized (strip : string -> string) (pt : ColPoint)
  : ColPoint :=
  {| name := normalize_name strip (Some (name pt));
     xyz := {| pX := pX pt; pY := pY pt; pZ := pZ pt |};
     AH_obs := AH_obs pt;
     AV_obs := AV_obs pt;
     D_obs := Some (get_D_obs pt) |}.

(** [str.strip] on strings of ASCII characters: the whitespace is
    tab, newline, vertical tab, form feed, carriage return, the four
    separators 28-31 and the space. *)
Definition is_space (c : ascii) : bool :=
  let n := nat_of_ascii c in
  ((9 <=? n)%nat && (n <=? 13)%nat) || ((28 <=? n)%nat && (n <=? 32)%nat).

Fixpoint lstrip (s : string) : string :=
  match s with
  | EmptyString => EmptyString
  | String c s' => if is_space c then lstrip s' else s
  end.

Fixpoint rstrip (s : string) : string :=
  match s with
  | EmptyString => EmptyString
  | String c s' =>
      match rstrip s' with
      | EmptyString => if is_space c then EmptyString else String c EmptyString
      | r => String c r
      end
  end.

Definition ascii_strip (s : string) : string := rstrip (lstrip s).

(** A payload with a single point named by blanks and no "D_obs". *)
Definition raw_one_point : RawConfig :=
  {| raw_camera :=
       Some {| raw_X := Present (Some 0); raw_Y := Present (Some 0);
               raw_Z := Present (Some 0) |};
     raw_points :=
       Some [ {| raw_name := Some "  "%string;
                 raw_pX := Present (Some 0);
                 raw_pY := Present (Some 100);
                 raw_pZ := Present (Some 0);
                 raw_AH_obs := Present (Some 1);
                 raw_AV_obs := Present (Some 0);
                 raw_D_obs := Absent |} ] |}.

Definition cfg_of_raw_one_point : Config :=
  {| camera := origin;
     collimation_points :=
       [ {| name := "PT"; xyz := north_100;
            AH_obs := 1; AV_obs := 0; D_obs := Some 0 |} ] |}.

Definition numeric_keys : list string :=
  ["X"; "Y"; "Z"; "AH_obs"; "AV_obs"]%string.

Definition raised_by_validation (e : raised) : Prop :=
  (exists k, e = KeyError k /\ In k numeric_keys) \/
  e = Builtin (ValueError "Valor numérico vacío").

(** ** The name of the exported file *)

(** [str.lower] on the letters A-Z; the other characters are kept. *)
Definition lower_char (c : ascii) : ascii :=
  let n := nat_of_ascii c in
  if ((65 <=? n)%nat && (n <=? 90)%nat)%bool then ascii_of_nat (n + 32) else c.

Fixpoint lower (s : string) : string :=
  match s with
  | EmptyString => EmptyString
  | String c s' => String (lower_char c) (lower s')
  end.

(** [s.endswith(suffix)]: some tail of [s] is [suffix]. *)
Fixpoint endswith (s suffix : string) : bool :=
  if String.eqb s suffix then true
  else match s with
       | EmptyString => false
       | String _ s' => endswith s' suffix
       end.

(** The download name chosen by [api_export_txt]: the "filename" of the
    payload, or the default, with ".txt" appended unless it ends so. *)
Definition export_filename (requested : option string) : string :=
  let filename := match requested with
                  | Some f => f
                  | None => "puntos_calculados.txt"%string
                  end in
  if negb (endswith (lower filename) ".txt") then
    (filename ++ ".txt")%string
  else filename.

(** * Properties *)

Local Close Scope route_scope.

(** ** The remainder and the two normalisations *)

Section Remainder.
Variables (a m : R).
Hypothesis m_pos : 0 < m.

Lemma float_rem_bounds : 0 <= float_rem a m < m.
Proof.
  unfold float_rem.
  destruct (base_Int_part (a / m)) as [Hlo Hhi].
  assert (Ha : a = m * (a / m)) by (field; lra).
  set (q := IZR (Int_part (a / m))) in *.
  split; [ | ]; rewrite Ha at 1; nra.
Qed.

Lemma float_rem_shift (k : Z) :
  0 <= a - m * IZR k < m -> float_rem a m = a - m * IZR k.
Proof.
  intros [Hlo Hhi]. unfold float_rem.
  replace (Int_part (a / m)) with k; [ reflexivity | ].
  apply Int_part_spec.
  assert (Ha : a / m * m = a) by (field; lra).
  set (q := a / m) in *.
  split.
  - apply Rmult_lt_reg_r with m; [ exact m_pos | ]. nra.
  - apply Rmult_le_reg_r with m; [ exact m_pos | ]. nra.
Qed.
End Remainder.

Lemma wrap360_bounds (a : R) : 0 <= wrap360 a < 360.
Proof.
  unfold wrap360.
  pose proof (float_rem_bounds a 360 ltac:(lra)) as H.
  destruct (Rle_dec 0 (float_rem a 360)); lra.
Qed.

Lemma wrap360_shift (a : R) (k : Z) :
  0 <= a - 360 * IZR k < 360 -> wrap360 a = a - 360 * IZR k.
Proof.
  intros H. unfold wrap360.
  rewrite (float_rem_shift a 360 ltac:(lra) k H).
  destruct (Rle_dec 0 (a - 360 * IZR k)); lra.
Qed.

Lemma wrap360_id (a : R) : 0 <= a < 360 -> wrap360 a = a.
Proof.
  intros H. rewrite (wrap360_shift a 0); simpl; lra.
Qed.

Lemma wrap360_idem (a : R) : wrap360 (wrap360 a) = wrap360 a.
Proof. apply wrap360_id, wrap360_bounds. Qed.

Lemma wrap180_bounds (a : R) : -180 <= wrap180 a < 180.
Proof.
  unfold wrap180.
  pose proof (float_rem_bounds (a + 180) 360 ltac:(lra)). lra.
Qed.

Lemma wrap180_shift (a : R) (k : Z) :
  -180 <= a - 360 * IZR k < 180 -> wrap180 a = a - 360 * IZR k.
Proof.
  intros H. unfold wrap180.
  rewrite (float_rem_shift (a + 180) 360 ltac:(lra) k); lra.
Qed.

Lemma wrap180_id (a : R) : -180 <= a < 180 -> wrap180 a = a.
Proof.
  intros H. rewrite (wrap180_shift a 0); simpl; lra.
Qed.

(** ** Degrees and radians *)

Lemma r2d_d2r (a : R) : r2d (d2r a) = a.
Proof. unfold r2d, d2r. field. apply PI_neq0. Qed.

Lemma d2r_lt (a b : R) : a < b -> d2r a < d2r b.
Proof.
  intros H. unfold d2r. pose proof PI_RGT_0.
  apply Rmult_lt_compat_r; [ lra | ]. apply Rmult_lt_compat_r; lra.
Qed.

Lemma d2r_180 : d2r 180 = PI.
Proof. unfold d2r. field. Qed.


(** ** The two-argument arctangent *)

Lemma tan_plus_PI (t : R) : cos t <> 0 -> tan (t + PI) = tan t.
Proof.
  intros Hc. unfold tan. rewrite neg_sin, neg_cos. field. exact Hc.
Qed.

Lemma atan2_right (y x : R) : 0 < x -> atan2 y x = atan (y / x).
Proof.
  intros H. unfold atan2. destruct (Rlt_dec 0 x); [ reflexivity | lra ].
Qed.

Lemma atan2_left_up (y x : R) :
  x < 0 -> 0 <= y -> atan2 y x = atan (y / x) + PI.
Proof.
  intros Hx Hy. unfold atan2.
  destruct (Rlt_dec 0 x); [ lra | ].
  destruct (Rlt_dec x 0); [ | lra ].
  destruct (Rle_dec 0 y); [ reflexivity | lra ].
Qed.

Lemma atan2_left_down (y x : R) :
  x < 0 -> y < 0 -> atan2 y x = atan (y / x) - PI.
Proof.
  intros Hx Hy. unfold atan2.
  destruct (Rlt_dec 0 x); [ lra | ].
  destruct (Rlt_dec x 0); [ | lra ].
  destruct (Rle_dec 0 y); [ lra | reflexivity ].
Qed.


Lemma polar_quotient (r t : R) :
  0 < r -> cos t <> 0 -> r * sin t / (r * cos t) = tan t.
Proof. intros Hr Hc. unfold tan. field. split; lra. Qed.

(** The angle of a vector given in polar form is its polar angle. *)
Lemma atan2_polar (r t : R) :
  0 < r -> - PI < t <= PI -> atan2 (r * sin t) (r * cos t) = t.
Proof.
  intros Hr [Hlo Hhi]. pose proof PI_RGT_0 as Hpi.
  destruct (Rlt_dec (- (PI / 2)) t) as [H1 | H1].
  - destruct (Rlt_dec t (PI / 2)) as [H2 | H2].
    + (* right half plane *)
      pose proof (cos_gt_0 t H1 H2) as Hc.
      rewrite atan2_right by nra.
      rewrite polar_quotient by lra.
      apply atan_tan. lra.
    + destruct (Req_dec t (PI / 2)) as [-> | H3].
      * (* straight up *)
        rewrite cos_PI2, sin_PI2. unfold atan2.
        destruct (Rlt_dec 0 (r * 0)); [ lra | ].
        destruct (Rlt_dec (r * 0) 0); [ lra | ].
        destruct (Rlt_dec 0 (r * 1)); [ reflexivity | lra ].
      * (* upper left quadrant *)
        assert (Hc : cos t < 0) by (apply cos_lt_0; lra).
        assert (Hs : 0 <= sin t) by (apply sin_ge_0; lra).
        rewrite atan2_left_up by nra.
        rewrite polar_quotient by lra.
        replace (tan t) with (tan (t - PI)).
        { rewrite atan_tan; lra. }
        replace t with (t - PI + PI) at 2 by ring.
        apply eq_sym, tan_plus_PI.
        replace (t - PI) with (- (PI - t)) by ring.
        rewrite cos_neg, Rtrigo_facts.cos_pi_minus. lra.
  - destruct (Req_dec t (- (PI / 2))) as [-> | H3].
    + (* straight down *)
      rewrite cos_neg, sin_neg, cos_PI2, sin_PI2. unfold atan2.
      destruct (Rlt_dec 0 (r * 0)); [ lra | ].
      destruct (Rlt_dec (r * 0) 0); [ lra | ].
      destruct (Rlt_dec 0 (r * - (1))); [ lra | ].
      destruct (Rlt_dec (r * - (1)) 0); [ reflexivity | lra ].
    + (* lower left quadrant *)
      assert (Hc' : 0 < cos (t + PI)) by (apply cos_gt_0; lra).
      assert (Hs' : 0 < sin (t + PI)) by (apply sin_gt_0; lra).
      rewrite neg_cos in Hc'. rewrite neg_sin in Hs'.
      rewrite atan2_left_down by nra.
      rewrite polar_quotient by lra.
      rewrite <- tan_plus_PI by lra.
      rewrite atan_tan; lra.
Qed.

(** ** Forward and inverse transforms *)

Lemma r2d_0 : r2d 0 = 0.
Proof. unfold r2d. field. apply PI_neq0. Qed.

Lemma wrap360_0 : wrap360 0 = 0.
Proof. apply wrap360_id. lra. Qed.

(** The bearing of a horizontal vector of length [r > 0] that points in the
    direction [A] is [A]. *)
Lemma bearing_polar (r A : R) :
  0 < r -> 0 <= A < 360 ->
  wrap360 (r2d (atan2 (r * sin (d2r A)) (r * cos (d2r A)))) = A.
Proof.
  intros Hr [Hlo Hhi]. pose proof PI_RGT_0 as Hpi.
  destruct (Rle_dec A 180) as [H | H].
  - rewrite atan2_polar; [ | exact Hr | ].
    + rewrite r2d_d2r. apply wrap360_id. lra.
    + rewrite <- d2r_180. split.
      * apply Rlt_le_trans with (d2r 0); [ unfold d2r; lra | ].
        destruct (Req_dec 0 A) as [<- | Hne]; [ lra | ].
        apply Rlt_le, d2r_lt. lra.
      * destruct (Req_dec A 180) as [-> | Hne]; [ lra | ].
        apply Rlt_le, d2r_lt. lra.
  - assert (Ht : d2r A = d2r (A - 360) + 2 * PI) by (unfold d2r; field).
    rewrite Ht, sin_plus, cos_plus, sin_2PI, cos_2PI.
    replace (sin (d2r (A - 360)) * 1 + cos (d2r (A - 360)) * 0)
      with (sin (d2r (A - 360))) by ring.
    replace (cos (d2r (A - 360)) * 1 - sin (d2r (A - 360)) * 0)
      with (cos (d2r (A - 360))) by ring.
    rewrite atan2_polar; [ | exact Hr | ].
    + rewrite r2d_d2r.
      rewrite (wrap360_shift (A - 360) (-1)); lra.
    + rewrite <- d2r_180.
      replace (- d2r 180) with (d2r (-180)) by (unfold d2r; field).
      split; [ apply d2r_lt; lra | apply Rlt_le, d2r_lt; lra ].
Qed.


Section RoundTrip.
Variables (O : Coord) (A E D : R).

Let P : Coord := point_of (calc_xyz_from_angles O A E D).

Lemma forward_dx : pX P - pX O = D * cos (d2r E) * sin (d2r A).
Proof. unfold P, calc_xyz_from_angles, point_of. simpl. ring. Qed.

Lemma forward_dy : pY P - pY O = D * cos (d2r E) * cos (d2r A).
Proof. unfold P, calc_xyz_from_angles, point_of. simpl. ring. Qed.

Lemma forward_dz : pZ P - pZ O = D * sin (d2r E).
Proof. unfold P, calc_xyz_from_angles, point_of. simpl. ring. Qed.


Hypothesis E_range : -90 < E < 90.




End RoundTrip.

(** ** Circular mean *)

Lemma sum_from (l : list R) (x : R) : fold_left Rplus l x = x + sum l.
Proof.
  unfold sum. revert x.
  induction l as [ | a l IH ]; intros x; simpl.
  - ring.
  - rewrite (IH (x + a)), (IH (0 + a)). ring.
Qed.

Lemma sum_cons (a : R) (l : list R) : sum (a :: l) = a + sum l.
Proof. unfold sum at 1. simpl. rewrite sum_from. ring. Qed.

Lemma sum_nil : sum [] = 0.
Proof. reflexivity. Qed.

Lemma mean_angle_loop (l : list R) (s0 c0 : R) :
  fold_left mean_angle_step l (s0, c0) = (s0 + sin_sum l, c0 + cos_sum l).
Proof.
  unfold sin_sum, cos_sum. revert s0 c0.
  induction l as [ | a l IH ]; intros s0 c0; simpl.
  - rewrite sum_nil. f_equal; ring.
  - unfold mean_angle_step at 2. simpl. rewrite IH, !sum_cons.
    f_equal; ring.
Qed.

Lemma mean_angle_deg_unfold (l : list R) :
  mean_angle_deg l =
    match Rlt_dec (Rabs (sin_sum l)) 1e-12, Rlt_dec (Rabs (cos_sum l)) 1e-12
    with
    | left _, left _ => 0
    | _, _ => wrap360 (r2d (atan2 (sin_sum l) (cos_sum l)))
    end.
Proof.
  unfold mean_angle_deg. rewrite mean_angle_loop. simpl.
  rewrite !Rplus_0_l. reflexivity.
Qed.

Lemma mean_angle_degenerate (l : list R) :
  Rabs (sin_sum l) < 1e-12 -> Rabs (cos_sum l) < 1e-12 ->
  mean_angle_deg l = 0.
Proof.
  intros Hs Hc. rewrite mean_angle_deg_unfold.
  destruct (Rlt_dec (Rabs (sin_sum l)) 1e-12); [ | contradiction ].
  destruct (Rlt_dec (Rabs (cos_sum l)) 1e-12); [ | contradiction ].
  reflexivity.
Qed.

Lemma mean_angle_regular (l : list R) :
  1e-12 <= Rabs (cos_sum l) ->
  mean_angle_deg l = wrap360 (r2d (atan2 (sin_sum l) (cos_sum l))).
Proof.
  intros Hc. rewrite mean_angle_deg_unfold.
  destruct (Rlt_dec (Rabs (sin_sum l)) 1e-12); [ | reflexivity ].
  destruct (Rlt_dec (Rabs (cos_sum l)) 1e-12); [ lra | reflexivity ].
Qed.

Lemma sin_sum_repeat (a : R) (n : nat) :
  sin_sum (repeat a n) = INR n * sin (d2r a).
Proof.
  unfold sin_sum. induction n as [ | n IH ].
  - simpl. rewrite sum_nil. ring.
  - cbn [repeat map]. rewrite sum_cons, IH, S_INR. ring.
Qed.

Lemma cos_sum_repeat (a : R) (n : nat) :
  cos_sum (repeat a n) = INR n * cos (d2r a).
Proof.
  unfold cos_sum. induction n as [ | n IH ].
  - simpl. rewrite sum_nil. ring.
  - cbn [repeat map]. rewrite sum_cons, IH, S_INR. ring.
Qed.

Lemma d2r_0 : d2r 0 = 0.
Proof. unfold d2r. field. Qed.

Lemma d2r_90 : d2r 90 = PI / 2.
Proof. unfold d2r. field. Qed.

Lemma d2r_270 : d2r 270 = 3 * (PI / 2).
Proof. unfold d2r. field. Qed.

Lemma d2r_360 : d2r 360 = 2 * PI.
Proof. unfold d2r. field. Qed.

Lemma sums_0_360 : sin_sum [0; 360] = 0 /\ cos_sum [0; 360] = 2.
Proof.
  unfold sin_sum, cos_sum. cbn [map].
  rewrite !sum_cons, sum_nil, d2r_0, d2r_360.
  rewrite sin_0, cos_0, sin_2PI, cos_2PI. split; ring.
Qed.

Lemma sums_90_270 : sin_sum [90; 270] = 0 /\ cos_sum [90; 270] = 0.
Proof.
  unfold sin_sum, cos_sum. cbn [map].
  rewrite !sum_cons, sum_nil, d2r_90, d2r_270.
  rewrite sin_PI2, cos_PI2, sin_3PI2, cos_3PI2. split; ring.
Qed.

(** ** Calibration *)

Lemma calibrate_loop (cam : Coord) (pts : list ColPoint)
    (l1 l2 : list R) (l3 : list Diagnostic) :
  fold_left (calibrate_step cam) pts (l1, l2, l3) =
    (l1 ++ map (residual_ah cam) pts,
     l2 ++ map (residual_av cam) pts,
     l3 ++ map (diagnostic_of cam) pts).
Proof.
  revert l1 l2 l3.
  induction pts as [ | pt pts IH ]; intros l1 l2 l3; simpl.
  - rewrite !app_nil_r. reflexivity.
  - rewrite IH, <- !app_assoc. reflexivity.
Qed.

Lemma calibrate_raises (cfg : Config) :
  (List.length (collimation_points cfg) < 2)%nat ->
  calibrate cfg = Raise insufficient.
Proof.
  intros H. unfold calibrate.
  destruct (Nat.ltb_spec (List.length (collimation_points cfg)) 2);
    [ reflexivity | lia ].
Qed.

Lemma calibrate_returns (cfg : Config) :
  (2 <= List.length (collimation_points cfg))%nat ->
  calibrate cfg =
    Ok {| ajuste_ah :=
            wrap180 (mean_angle_deg
                       (map wrap360
                            (map (residual_ah (camera cfg))
                                 (collimation_points cfg))));
          ajuste_av :=
            sum (map (residual_av (camera cfg)) (collimation_points cfg))
            / INR (List.length (collimation_points cfg));
          diagnostics :=
            map (diagnostic_of (camera cfg)) (collimation_points cfg);
          n_points := List.length (collimation_points cfg) |}.
Proof.
  intros H. unfold calibrate.
  destruct (Nat.ltb_spec (List.length (collimation_points cfg)) 2);
    [ lia | ].
  rewrite calibrate_loop. simpl. rewrite length_map. reflexivity.
Qed.

Lemma azimut_xy_bounds (cam pt : Coord) : 0 <= azimut_xy cam pt < 360.
Proof. apply wrap360_bounds. Qed.

(** ** Running the routes *)

Lemma ensure_state_loaded (w : World) :
  loaded (STATE w) = true -> ensure_state w = (Ok tt, w).
Proof.
  intros H. unfold ensure_state, bind, get_STATE. rewrite H. reflexivity.
Qed.

Lemma api_calibrate_run (w : World) :
  api_calibrate w =
    match disk w with
    | None => (Raise (FileNotFoundError "No existe config.json"), w)
    | Some cfg =>
        match calibrate cfg with
        | Raise e => (Raise e, w)
        | Ok cal =>
            (Ok cal,
             {| disk := disk w;
                STATE := STATE_set_loaded (STATE_update (STATE w) cal) |})
        end
    end.
Proof.
  unfold api_calibrate, bind, load_config, lift, modify_STATE, ret.
  destruct (disk w) as [ cfg | ] eqn:Hd; [ | reflexivity ].
  destruct (calibrate cfg); simpl; rewrite ?Hd; reflexivity.
Qed.

Lemma api_compute_point_run (cfg : Config) (st : State) (ah av d : R) :
  loaded st = true ->
  api_compute_point
    {| p_AH_obs := Some ah; p_AV_obs := Some av; p_D_obs := Some d |}
    {| disk := Some cfg; STATE := st |} =
  (Ok (let ah_corr := wrap360 (ah + st_ajuste_ah st) in
       let av_corr := av + st_ajuste_av st in
       let xyz := calc_xyz_from_angles (camera cfg) ah_corr av_corr d in
       {| r_X := fst (fst xyz); r_Y := snd (fst xyz); r_Z := snd xyz;
          r_AH_obs := ah; r_AV_obs := av; r_D_obs := d;
          AH_corr := ah_corr; AV_corr := av_corr;
          r_ajuste_ah := st_ajuste_ah st;
          r_ajuste_av := st_ajuste_av st |}),
   {| disk := Some cfg; STATE := st |}).
Proof.
  intros H. unfold api_compute_point.
  unfold bind at 1. rewrite ensure_state_loaded by exact H.
  reflexivity.
Qed.

Lemma map_const_repeat {A B : Type} (f : A -> B) (c : B) (l : list A) :
  Forall (fun x => f x = c) l -> map f l = repeat c (List.length l).
Proof.
  induction 1 as [ | x l Hx _ IH ]; simpl.
  - reflexivity.
  - rewrite Hx, IH. reflexivity.
Qed.

(** The circular mean of [n >= 1] copies of one direction is that
    direction: the sums never fall in the degenerate branch. *)
Lemma mean_angle_deg_repeat (a : R) (n : nat) :
  (1 <= n)%nat -> 0 <= a < 360 -> mean_angle_deg (repeat a n) = a.
Proof.
  intros Hn Ha.
  assert (HN : 1 <= INR n) by (apply (le_INR 1); exact Hn).
  rewrite mean_angle_deg_unfold, sin_sum_repeat, cos_sum_repeat.
  pose proof (sin2_cos2 (d2r a)) as H1. unfold Rsqr in H1.
  set (s := sin (d2r a)) in *. set (c := cos (d2r a)) in *.
  destruct (Rlt_dec (Rabs (INR n * s)) 1e-12) as [Hs | Hs];
    [ destruct (Rlt_dec (Rabs (INR n * c)) 1e-12) as [Hc | Hc] | ];
    try (apply bearing_polar; [ lra | exact Ha ]).
  exfalso.
  apply Rabs_def2 in Hs. apply Rabs_def2 in Hc.
  assert (Hs2 : (INR n * s) * (INR n * s) < 1 / 4) by nra.
  assert (Hc2 : (INR n * c) * (INR n * c) < 1 / 4) by nra.
  assert (Hn2 : 1 <= INR n * INR n) by nra.
  assert (Heq : (INR n * s) * (INR n * s) + (INR n * c) * (INR n * c)
                = INR n * INR n).
  { transitivity (INR n * INR n * (s * s + c * c)); [ ring | ].
    rewrite H1. ring. }
  lra.
Qed.

Lemma azimut_xy_north (cam pt : Coord) :
  pX pt - pX cam = 0 -> 0 < pY pt - pY cam -> azimut_xy cam pt = 0.
Proof.
  intros Hx Hy. unfold azimut_xy. rewrite Hx.
  rewrite atan2_right by exact Hy.
  unfold Rdiv. rewrite Rmult_0_l, atan_0, r2d_0. apply wrap360_0.
Qed.

Lemma azimut_xy_east (cam pt : Coord) :
  0 < pX pt - pX cam -> pY pt - pY cam = 0 -> azimut_xy cam pt = 90.
Proof.
  intros Hx Hy. unfold azimut_xy. rewrite Hy.
  unfold atan2.
  destruct (Rlt_dec 0 0); [ lra | ].
  destruct (Rlt_dec 0 (pX pt - pX cam)); [ | lra ].
  rewrite <- d2r_90, r2d_d2r. apply wrap360_id. lra.
Qed.

Lemma wrap180_180 : wrap180 180 = -180.
Proof. rewrite (wrap180_shift 180 1); lra. Qed.

Lemma float_rem_periodic (a m : R) (k : Z) :
  0 < m -> float_rem (a + m * IZR k) m = float_rem a m.
Proof.
  intros Hm.
  pose proof (float_rem_bounds a m Hm) as Hb. unfold float_rem in Hb.
  rewrite (float_rem_shift (a + m * IZR k) m Hm (k + Int_part (a / m))).
  - unfold float_rem. rewrite plus_IZR. ring.
  - rewrite plus_IZR. lra.
Qed.

Lemma inclinacion_level (cam pt : Coord) :
  pZ pt - pZ cam = 0 ->
  0 < hypot (pX pt - pX cam) (pY pt - pY cam) ->
  inclinacion cam pt = 0.
Proof.
  intros Hz Hh. unfold inclinacion. rewrite Hz.
  rewrite atan2_right by exact Hh.
  unfold Rdiv. rewrite Rmult_0_l, atan_0. apply r2d_0.
Qed.

(** A uniform reading offset [b] is recovered, with the opposite sign. *)
Lemma ajuste_ah_uniform_offset (cfg : Config) (b : R) :
  (2 <= List.length (collimation_points cfg))%nat ->
  -180 < b <= 180 ->
  Forall (fun pt : ColPoint => AH_obs pt = azimut_xy (camera cfg) pt + b)
         (collimation_points cfg) ->
  exists cal, calibrate cfg = Ok cal /\ ajuste_ah cal = - b.
Proof.
  intros Hlen Hb Hobs.
  eexists. split; [ apply calibrate_returns; exact Hlen | ].
  cbn [ajuste_ah]. rewrite map_map.
  rewrite (map_const_repeat _ (wrap360 (- b))).
  - rewrite mean_angle_deg_repeat by (lia || apply wrap360_bounds).
    destruct (Rle_dec b 0) as [Hneg | Hpos].
    + rewrite wrap360_id by lra. apply wrap180_id. lra.
    + rewrite (wrap360_shift (- b) (-1)) by lra.
      rewrite (wrap180_shift _ 1); lra.
  - eapply Forall_impl; [ | exact Hobs ].
    intros pt Hpt. cbn beta in Hpt. unfold residual_ah. rewrite Hpt.
    replace (_ - _) with (- b) by ring.
    rewrite wrap180_id by lra. reflexivity.
Qed.

(** * Claims *)




(** C2: when every reference point is read exactly 5 degrees above its true
    azimuth (and there are at least two of them), [calibrate] returns
    [ajuste_ah = -5]; once that calibration is published, a fresh sighting
    read 5 degrees above the true azimuth of its target is corrected to
    that true azimuth. *)
Theorem uniform_offset_calibration
    (cfg : Config) (st : State) (target : Coord) (av d : R) :
  (2 <= List.length (collimation_points cfg))%nat ->
  Forall (fun pt : ColPoint => AH_obs pt = azimut_xy (camera cfg) pt + 5)
         (collimation_points cfg) ->
  exists (cal : CalibrationResult) (w1 : World) (r : ComputedPoint),
    calibrate cfg = Ok cal /\
    ajuste_ah cal = -5 /\
    api_calibrate {| disk := Some cfg; STATE := st |} = (Ok cal, w1) /\
    api_compute_point
      {| p_AH_obs := Some (azimut_xy (camera cfg) target + 5);
         p_AV_obs := Some av;
         p_D_obs := Some d |} w1 = (Ok r, w1) /\
    AH_corr r = azimut_xy (camera cfg) target.
Proof.
  intros Hlen Hobs.
  destruct (ajuste_ah_uniform_offset cfg 5 Hlen ltac:(lra) Hobs)
    as [cal [Hcal Hah]].
  assert (Hah' : ajuste_ah cal = -5) by (rewrite Hah; lra).
  exists cal. eexists. eexists.
  split; [ exact Hcal | ]. split; [ exact Hah' | ]. split.
  - rewrite api_calibrate_run. cbn [disk STATE]. rewrite Hcal. reflexivity.
  - split.
    + apply api_compute_point_run. reflexivity.
    + cbn [AH_corr STATE_set_loaded STATE_update st_ajuste_ah].
      rewrite Hah'.
      replace (_ + 5 + -5) with (azimut_xy (camera cfg) target) by ring.
      apply wrap360_id, azimut_xy_bounds.
Qed.

Lemma uniform_offset_calibration_example :
  exists (cal : CalibrationResult) (w1 : World) (r : ComputedPoint),
    calibrate cfg_offset_5 = Ok cal /\
    ajuste_ah cal = -5 /\
    api_calibrate {| disk := Some cfg_offset_5; STATE := STATE_init |}
      = (Ok cal, w1) /\
    api_compute_point
      {| p_AH_obs := Some (azimut_xy (camera cfg_offset_5) east_100 + 5);
         p_AV_obs := Some 0;
         p_D_obs := Some 50 |} w1 = (Ok r, w1) /\
    AH_corr r = azimut_xy (camera cfg_offset_5) east_100.
Proof.
  apply (uniform_offset_calibration cfg_offset_5 STATE_init east_100 0 50).
  - simpl. lia.
  - repeat constructor; cbn [AH_obs camera cfg_offset_5 xyz].
    + rewrite azimut_xy_north; simpl; lra.
    + rewrite azimut_xy_east; simpl; lra.
Defined.

(** C3: [calibrate] raises exactly when fewer than 2 collimation points are
    supplied, and returns a result exactly when there are at least 2; the
    exception is always the ValueError about the number of points. *)
Theorem calibrate_raises_iff_fewer_than_two (cfg : Config) :
  ((exists e, calibrate cfg = Raise e) <->
     (List.length (collimation_points cfg) < 2)%nat) /\
  ((exists cal, calibrate cfg = Ok cal) <->
     (2 <= List.length (collimation_points cfg))%nat) /\
  (is_ok (calibrate cfg) = false -> calibrate cfg = Raise insufficient).
Proof.
  destruct (Nat.lt_ge_cases (List.length (collimation_points cfg)) 2)
    as [Hlt | Hge].
  - pose proof (calibrate_raises cfg Hlt) as Hr.
    repeat split.
    + intros _. exact Hlt.
    + intros _. eexists. exact Hr.
    + intros [cal Hc]. rewrite Hr in Hc. discriminate.
    + intros H. lia.
    + intros _. exact Hr.
  - pose proof (calibrate_returns cfg Hge) as Hr.
    repeat split.
    + intros [e He]. rewrite Hr in He. discriminate.
    + intros H. lia.
    + intros _. exact Hge.
    + intros _. eexists. exact Hr.
    + rewrite Hr. discriminate.
Qed.

Lemma calibrate_raises_iff_fewer_than_two_example :
  calibrate cfg_one_point = Raise insufficient.
Proof.
  apply (proj2 (proj2 (calibrate_raises_iff_fewer_than_two cfg_one_point))).
  reflexivity.
Defined.

(** C4: [wrap180 180] is -180, on the reals and on the doubles, so the
    results of [wrap180] are not confined to (-180, 180]; and for two
    references to the north read at 180 degrees [calibrate] returns
    [ajuste_ah = -180]. *)
Theorem wrap180_reaches_minus_180 :
  wrap180 180 = -180 /\
  F64.wrap180 180%float = (-180)%float /\
  exists cal, calibrate cfg_half_turn = Ok cal /\ ajuste_ah cal = -180.
Proof.
  split; [ exact wrap180_180 | ].
  split; [ vm_compute; reflexivity | ].
  eexists. split.
  - apply calibrate_returns. simpl. lia.
  - cbn [ajuste_ah camera collimation_points cfg_half_turn map].
    unfold residual_ah. cbn [AH_obs xyz].
    rewrite azimut_xy_north by (simpl; lra).
    replace (0 - 180) with (-180) by ring.
    rewrite (wrap180_id (-180)) by lra.
    rewrite (wrap360_shift (-180) (-1)) by lra.
    replace (-180 - 360 * -1) with 180 by ring.
    change [180; 180] with (repeat 180 2).
    rewrite mean_angle_deg_repeat by (lia || lra).
    exact wrap180_180.
Qed.

(** C5: on the doubles [mean_angle_deg [0.0; 360.0]] is 360.0, not 0: the
    sine of [d2r 360.0] is a tiny negative number, so [atan2] returns a
    tiny negative angle, which [wrap360] rounds up to 360.0.  The rest of
    the claim holds there: [mean_angle_deg [90.0; 270.0]] is 0.0, and the
    result is 0.0 whenever both sums are below 1e-12 in magnitude.  Over
    exact reals all three parts of the claim hold. *)
Theorem mean_angle_deg_double_reaches_360 :
  (forall (sin cos : float -> float) (atan2 : float -> float -> float),
     F64.libm_values sin cos atan2 ->
     F64.mean_angle_deg sin cos atan2 [0; 360]%float = 360%float /\
     F64.mean_angle_deg sin cos atan2 [90; 270]%float = 0%float) /\
  F64.wrap360 (F64.r2d (-1.2246467991473532e-16)%float) = 360%float /\
  (forall (sin cos : float -> float) (atan2 : float -> float -> float)
          (angles_deg : list float),
     let sc := fold_left (F64.mean_angle_step sin cos) angles_deg
                         (0, 0)%float in
     (abs (fst sc) <? 1e-12)%float = true ->
     (abs (snd sc) <? 1e-12)%float = true ->
     F64.mean_angle_deg sin cos atan2 angles_deg = 0%float) /\
  mean_angle_deg [0; 360] = 0 /\
  mean_angle_deg [90; 270] = 0 /\
  (forall angles_deg : list R,
     Rabs (sin_sum angles_deg) < 1e-12 ->
     Rabs (cos_sum angles_deg) < 1e-12 ->
     mean_angle_deg angles_deg = 0).
Proof.
  split; [ | split; [ | split; [ | split; [ | split ] ] ] ].
  - intros sin cos atan2
      (s0 & c0 & s90 & c90 & s270 & c270 & s360 & c360 & at2).
    split.
    + cbv beta iota zeta delta
        [F64.mean_angle_deg F64.mean_angle_step fold_left fst snd].
      rewrite s0, c0, s360, c360.
      change (0 + 0 + -2.4492935982947064e-16)%float
        with (-2.4492935982947064e-16)%float.
      change (0 + 1 + 1)%float with 2%float.
      rewrite at2. vm_compute. reflexivity.
    + cbv beta iota zeta delta
        [F64.mean_angle_deg F64.mean_angle_step fold_left fst snd].
      rewrite s90, c90, s270, c270. vm_compute. reflexivity.
  - vm_compute. reflexivity.
  - intros sin cos atan2 l sc Hs Hc. unfold F64.mean_angle_deg.
    fold sc. cbv zeta. rewrite Hs, Hc. reflexivity.
  - destruct sums_0_360 as [Hs Hc].
    rewrite mean_angle_regular by (rewrite Hc, Rabs_right; lra).
    rewrite Hs, Hc, atan2_right by lra.
    unfold Rdiv. rewrite Rmult_0_l, atan_0, r2d_0. apply wrap360_0.
  - destruct sums_90_270 as [Hs Hc].
    apply mean_angle_degenerate; rewrite ?Hs, ?Hc, Rabs_R0; lra.
  - exact mean_angle_degenerate.
Qed.

Lemma mean_angle_deg_double_reaches_360_example :
  F64.mean_angle_deg F64.sin_sample F64.cos_sample F64.atan2_sample
    [0; 360]%float = 360%float /\
  F64.mean_angle_deg F64.sin_sample F64.cos_sample F64.atan2_sample
    [90; 270]%float = 0%float.
Proof.
  apply (proj1 mean_angle_deg_double_reaches_360).
  vm_compute. repeat split.
Defined.

(** C6: on the doubles, [wrap360 (-1e-20)] is 360.0, outside [0, 360), and
    applying [wrap360] once more gives 0.0, so the function is not
    idempotent there; the same 360.0 comes out of
    [wrap360 (AH_obs + ajuste_ah)] for [AH_obs = 1.0] and
    [ajuste_ah = -1.0000000000000002]. *)
Theorem wrap360_double_reaches_360 :
  F64.wrap360 (-1e-20)%float = 360%float /\
  F64.wrap360 (F64.wrap360 (-1e-20)%float) = 0%float /\
  F64.wrap360 (1 + -1.0000000000000002)%float = 360%float.
Proof. repeat split; vm_compute; reflexivity. Qed.

(** C7: for every configuration, every published state of the cache and
    every complete sighting, /api/compute answers with
    [AH_corr = wrap360 (AH_obs + ajuste_ah)],
    [AV_corr = AV_obs + ajuste_av] with no normalisation, and
    [(X, Y, Z) = calc_xyz_from_angles (camera, AH_corr, AV_corr, D_obs)];
    the world is left as it was. *)
Theorem reconstruction_formula
    (cfg : Config) (st : State) (ah av d : R) :
  loaded st = true ->
  exists r : ComputedPoint,
    api_compute_point
      {| p_AH_obs := Some ah; p_AV_obs := Some av; p_D_obs := Some d |}
      {| disk := Some cfg; STATE := st |}
    = (Ok r, {| disk := Some cfg; STATE := st |}) /\
    AH_corr r = wrap360 (ah + st_ajuste_ah st) /\
    AV_corr r = av + st_ajuste_av st /\
    (r_X r, r_Y r, r_Z r)
    = calc_xyz_from_angles (camera cfg) (AH_corr r) (AV_corr r) d.
Proof.
  intros Hl. eexists. split.
  - apply api_compute_point_run. exact Hl.
  - cbn. repeat split.
Qed.

Lemma reconstruction_formula_example :
  exists r : ComputedPoint,
    api_compute_point
      {| p_AH_obs := Some 1; p_AV_obs := Some 0; p_D_obs := Some 50 |}
      {| disk := Some cfg_offset_5; STATE := st_published |}
    = (Ok r, {| disk := Some cfg_offset_5; STATE := st_published |}) /\
    AH_corr r = wrap360 (1 + st_ajuste_ah st_published) /\
    AV_corr r = 0 + st_ajuste_av st_published /\
    (r_X r, r_Y r, r_Z r)
    = calc_xyz_from_angles (camera cfg_offset_5) (AH_corr r) (AV_corr r) 50.
Proof.
  apply (reconstruction_formula cfg_offset_5 st_published 1 0 50).
  reflexivity.
Defined.

(** C8: when /api/calibrate raises, the cache [STATE] is exactly what it
    was before the call, and every later /api/compute behaves as it would
    have without the failed call. *)
Theorem failed_calibration_keeps_state (w w' : World) (e : exn) :
  api_calibrate w = (Raise e, w') ->
  STATE w' = STATE w /\
  forall payload, api_compute_point payload w' = api_compute_point payload w.
Proof.
  intros H. rewrite api_calibrate_run in H.
  assert (Hw : w' = w).
  { destruct (disk w) as [ cfg | ].
    - destruct (calibrate cfg); [ discriminate | ].
      injection H as _ Hw. symmetry. exact Hw.
    - injection H as _ Hw. symmetry. exact Hw. }
  rewrite Hw. split; reflexivity.
Qed.

Lemma failed_calibration_keeps_state_example :
  let w := {| disk := Some cfg_one_point; STATE := st_published |} in
  api_calibrate w = (Raise insufficient, w) /\
  STATE w = st_published /\
  forall payload, api_compute_point payload w = api_compute_point payload w.
Proof.
  split; [ reflexivity | ].
  exact (failed_calibration_keeps_state
           {| disk := Some cfg_one_point; STATE := st_published |}
           {| disk := Some cfg_one_point; STATE := st_published |}
           insufficient eq_refl).
Defined.

(** C9: [mean_angle_deg] of the empty list is 0: both sums are 0 and the
    degenerate branch is taken. *)
Theorem mean_angle_deg_nil :
  mean_angle_deg [] = 0 /\ sin_sum [] = 0 /\ cos_sum [] = 0.
Proof.
  assert (Hs : sin_sum [] = 0) by reflexivity.
  assert (Hc : cos_sum [] = 0) by reflexivity.
  split; [ | split; assumption ].
  apply mean_angle_degenerate; rewrite ?Hs, ?Hc, Rabs_R0; lra.
Qed.

(** C10: at distance 0 the forward transform returns the origin itself,
    whatever the two angles: the three offsets added to it are 0. *)
Theorem forward_zero_distance (O : Coord) (A E : R) :
  calc_xyz_from_angles O A E 0 = (pX O, pY O, pZ O) /\
  point_of (calc_xyz_from_angles O A E 0) = O.
Proof.
  assert (H : calc_xyz_from_angles O A E 0 = (pX O, pY O, pZ O)).
  { unfold calc_xyz_from_angles. repeat f_equal; ring. }
  split; [ exact H | ].
  rewrite H. destruct O. reflexivity.
Qed.

(** * Further properties *)

(** X1: over exact reals [wrap360] lands in [0, 360), is idempotent and has
    period 360, and so [azimut_xy] lands in [0, 360). *)
Theorem wrap360_exact (a : R) (k : Z) (cam pt : Coord) :
  0 <= wrap360 a < 360 /\
  wrap360 (wrap360 a) = wrap360 a /\
  wrap360 (a + 360 * IZR k) = wrap360 a /\
  0 <= azimut_xy cam pt < 360.
Proof.
  split; [ apply wrap360_bounds | ].
  split; [ apply wrap360_idem | ].
  split; [ | apply azimut_xy_bounds ].
  unfold wrap360. rewrite float_rem_periodic by lra. reflexivity.
Qed.

(** X2: over exact reals [wrap180] lands in [-180, 180) and has period 360, and
    the [ajuste_ah] of every result of [calibrate] lies in [-180, 180). *)
Theorem wrap180_exact (a : R) (k : Z) (cfg : Config) :
  -180 <= wrap180 a < 180 /\
  wrap180 (a + 360 * IZR k) = wrap180 a /\
  match calibrate cfg with
  | Ok cal => -180 <= ajuste_ah cal < 180
  | Raise _ => True
  end.
Proof.
  split; [ apply wrap180_bounds | ].
  split.
  - unfold wrap180.
    replace (a + 360 * IZR k + 180) with (a + 180 + 360 * IZR k) by ring.
    rewrite float_rem_periodic by lra. reflexivity.
  - unfold calibrate.
    destruct (List.length (collimation_points cfg) <? 2)%nat; [ exact I | ].
    destruct (fold_left _ _ _) as [[l1 l2] l3]. cbn [ajuste_ah].
    apply wrap180_bounds.
Qed.

(** X3: any uniform reading offset [b] in (-180, 180] over at least two
    references gives [ajuste_ah = -b]. *)
Theorem uniform_offset_recovered (cfg : Config) (b : R) :
  (2 <= List.length (collimation_points cfg))%nat ->
  -180 < b <= 180 ->
  Forall (fun pt : ColPoint => AH_obs pt = azimut_xy (camera cfg) pt + b)
         (collimation_points cfg) ->
  exists cal, calibrate cfg = Ok cal /\ ajuste_ah cal = - b.
Proof. exact (ajuste_ah_uniform_offset cfg b). Qed.

Lemma uniform_offset_recovered_example :
  exists cal, calibrate cfg_end_to_end = Ok cal /\ ajuste_ah cal = - (1).
Proof.
  apply (uniform_offset_recovered cfg_end_to_end 1).
  - simpl. lia.
  - lra.
  - repeat constructor; cbn [AH_obs camera cfg_end_to_end xyz].
    + rewrite azimut_xy_north; simpl; lra.
    + rewrite azimut_xy_east; simpl; lra.
Defined.

(** The end-to-end scenario: with the camera at the origin, PT1 at
    (0,100,0) read at 1 degree and PT2 at (100,0,0) read at 91 degrees,
    calibration gives [ajuste_ah = -1] and [ajuste_av = 0], and the sighting
    (1 degree, 0 degrees, 50) is reconstructed as the point (0, 50, 0). *)
Theorem end_to_end_scenario :
  exists (cal : CalibrationResult) (w1 : World) (r : ComputedPoint),
    api_calibrate {| disk := Some cfg_end_to_end; STATE := STATE_init |}
      = (Ok cal, w1) /\
    ajuste_ah cal = -1 /\
    ajuste_av cal = 0 /\
    api_compute_point
      {| p_AH_obs := Some 1; p_AV_obs := Some 0; p_D_obs := Some 50 |} w1
      = (Ok r, w1) /\
    (r_X r, r_Y r, r_Z r) = (0, 50, 0).
Proof.
  assert (Hn : azimut_xy origin north_100 = 0)
    by (apply azimut_xy_north; simpl; lra).
  assert (He : azimut_xy origin east_100 = 90)
    by (apply azimut_xy_east; simpl; lra).
  assert (Hh : forall x y, x * x + y * y = 100 * 100 -> 0 < hypot x y).
  { intros x y H. unfold hypot. rewrite H. apply sqrt_lt_R0. lra. }
  assert (Hin : inclinacion origin north_100 = 0)
    by (apply inclinacion_level; [ | apply Hh ]; simpl; ring).
  assert (Hie : inclinacion origin east_100 = 0)
    by (apply inclinacion_level; [ | apply Hh ]; simpl; ring).
  pose proof (calibrate_returns cfg_end_to_end ltac:(simpl; lia)) as Hcal.
  set (cal := {| ajuste_ah := _ |}) in Hcal.
  assert (Hah : ajuste_ah cal = -1).
  { unfold cal.
    cbn [ajuste_ah camera collimation_points cfg_end_to_end map].
    unfold residual_ah. cbn [AH_obs xyz]. rewrite Hn, He.
    replace (0 - 1) with (-1) by ring.
    replace (90 - 91) with (-1) by ring.
    rewrite (wrap180_id (-1)) by lra.
    rewrite (wrap360_shift (-1) (-1)) by lra.
    replace (-1 - 360 * -1) with 359 by ring.
    change [359; 359] with (repeat 359 2).
    rewrite mean_angle_deg_repeat by (lia || lra).
    rewrite (wrap180_shift 359 1); lra. }
  assert (Hav : ajuste_av cal = 0).
  { unfold cal.
    cbn [ajuste_av camera collimation_points cfg_end_to_end map
         List.length].
    unfold residual_av. cbn [AV_obs xyz]. rewrite Hin, Hie.
    rewrite !sum_cons, sum_nil. simpl. field. }
  exists cal. eexists. eexists.
  split.
  { rewrite api_calibrate_run. cbn [disk STATE]. rewrite Hcal.
    reflexivity. }
  split; [ exact Hah | ]. split; [ exact Hav | ].
  split; [ apply api_compute_point_run; reflexivity | ].
  cbn [r_X r_Y r_Z STATE_set_loaded STATE_update st_ajuste_ah st_ajuste_av
       camera cfg_end_to_end].
  rewrite Hah, Hav.
  replace (1 + -1) with 0 by ring. rewrite wrap360_0.
  unfold calc_xyz_from_angles. cbn [fst snd origin pX pY pZ].
  replace (0 + 0) with 0 by ring.
  rewrite d2r_0, sin_0, cos_0. repeat f_equal; ring.
Qed.

(** X5: calibration with no bias: when every reference is read at exactly its
    true azimuth and elevation, both adjustments and every angular residual
    of the diagnostics are 0. *)
Theorem unbiased_calibration (cfg : Config) :
  (2 <= List.length (collimation_points cfg))%nat ->
  Forall (fun pt : ColPoint =>
            AH_obs pt = azimut_xy (camera cfg) pt /\
            AV_obs pt = inclinacion (camera cfg) pt)
         (collimation_points cfg) ->
  exists cal,
    calibrate cfg = Ok cal /\
    ajuste_ah cal = 0 /\
    ajuste_av cal = 0 /\
    Forall (fun dg => dAH dg = 0 /\ dAV dg = 0) (diagnostics cal).
Proof.
  intros Hlen Hobs.
  assert (Hres : Forall (fun pt : ColPoint =>
                           residual_ah (camera cfg) pt = 0 /\
                           residual_av (camera cfg) pt = 0)
                        (collimation_points cfg)).
  { eapply Forall_impl; [ | exact Hobs ].
    intros pt [Hh Hv]. unfold residual_ah, residual_av.
    rewrite Hh, Hv, !Rminus_diag. split; [ apply wrap180_id; lra | ring ]. }
  destruct (ajuste_ah_uniform_offset cfg 0 Hlen ltac:(lra)) as [cal [Hc Ha]].
  { eapply Forall_impl; [ | exact Hobs ].
    intros pt [Hh _]. rewrite Hh. ring. }
  exists cal. split; [ exact Hc | ].
  rewrite (calibrate_returns cfg Hlen) in Hc. injection Hc as <-.
  split; [ rewrite Ha; ring | ].
  cbn [ajuste_av diagnostics]. split.
  - rewrite (map_const_repeat _ 0).
    + assert (Hz : forall n, sum (repeat 0 n) = 0).
      { induction n as [ | n IH ]; [ reflexivity | ].
        cbn [repeat]. rewrite sum_cons, IH. ring. }
      rewrite Hz. unfold Rdiv. apply Rmult_0_l.
    + eapply Forall_impl; [ | exact Hres ]. intros pt [_ H]. exact H.
  - apply Forall_map. eapply Forall_impl; [ | exact Hres ].
    intros pt H. exact H.
Qed.

Lemma unbiased_calibration_example :
  exists cal,
    calibrate
      {| camera := origin;
         collimation_points :=
           [ {| name := "PT1"; xyz := north_100;
                AH_obs := azimut_xy origin north_100;
                AV_obs := inclinacion origin north_100;
                D_obs := None |};
             {| name := "PT2"; xyz := east_100;
                AH_obs := azimut_xy origin east_100;
                AV_obs := inclinacion origin east_100;
                D_obs := None |} ] |} = Ok cal /\
    ajuste_ah cal = 0 /\
    ajuste_av cal = 0 /\
    Forall (fun dg => dAH dg = 0 /\ dAV dg = 0) (diagnostics cal).
Proof.
  apply unbiased_calibration.
  - simpl. lia.
  - repeat constructor.
Defined.

(** ** More on the normalisations *)

Lemma wrap360_eq (a : R) : wrap360 a = a - 360 * IZR (Int_part (a / 360)).
Proof.
  unfold wrap360.
  pose proof (float_rem_bounds a 360 ltac:(lra)) as H.
  destruct (Rle_dec 0 (float_rem a 360)); [ reflexivity | lra ].
Qed.

Lemma wrap180_eq (a : R) :
  wrap180 a = a - 360 * IZR (Int_part ((a + 180) / 360)).
Proof. unfold wrap180, float_rem. ring. Qed.

Lemma wrap360_periodic (a : R) (k : Z) : wrap360 (a + 360 * IZR k) = wrap360 a.
Proof. unfold wrap360. rewrite float_rem_periodic by lra. reflexivity. Qed.

Lemma wrap180_periodic (a : R) (k : Z) : wrap180 (a + 360 * IZR k) = wrap180 a.
Proof.
  unfold wrap180.
  replace (a + 360 * IZR k + 180) with (a + 180 + 360 * IZR k) by ring.
  rewrite float_rem_periodic by lra. reflexivity.
Qed.

Lemma congruent_wrap360 (a : R) : congruent a (wrap360 a).
Proof.
  exists (- Int_part (a / 360))%Z. rewrite wrap360_eq, opp_IZR. ring.
Qed.

Lemma congruent_wrap180 (a : R) : congruent a (wrap180 a).
Proof.
  exists (- Int_part ((a + 180) / 360))%Z. rewrite wrap180_eq, opp_IZR. ring.
Qed.

Lemma wrap360_congruent (a b : R) : congruent a b -> wrap360 a = wrap360 b.
Proof. intros [k ->]. symmetry. apply wrap360_periodic. Qed.

Lemma wrap180_congruent (a b : R) : congruent a b -> wrap180 a = wrap180 b.
Proof. intros [k ->]. symmetry. apply wrap180_periodic. Qed.

Lemma congruent_unique_360 (a b : R) :
  congruent a b -> 0 <= a < 360 -> 0 <= b < 360 -> a = b.
Proof.
  intros Hc Ha Hb.
  rewrite <- (wrap360_id a Ha), <- (wrap360_id b Hb).
  apply wrap360_congruent, Hc.
Qed.

(** ** Periodicity of the trigonometric functions in degrees *)

Lemma sin_period_Z (x : R) (k : Z) : sin (x + 2 * IZR k * PI) = sin x.
Proof.
  destruct (Z_le_gt_dec 0 k) as [Hk | Hk].
  - rewrite <- (Z2Nat.id k Hk), <- INR_IZR_INZ. apply sin_period.
  - rewrite <- (sin_period (x + 2 * IZR k * PI) (Z.to_nat (- k))).
    rewrite INR_IZR_INZ, Z2Nat.id by lia. rewrite opp_IZR.
    f_equal. ring.
Qed.

Lemma cos_period_Z (x : R) (k : Z) : cos (x + 2 * IZR k * PI) = cos x.
Proof.
  destruct (Z_le_gt_dec 0 k) as [Hk | Hk].
  - rewrite <- (Z2Nat.id k Hk), <- INR_IZR_INZ. apply cos_period.
  - rewrite <- (cos_period (x + 2 * IZR k * PI) (Z.to_nat (- k))).
    rewrite INR_IZR_INZ, Z2Nat.id by lia. rewrite opp_IZR.
    f_equal. ring.
Qed.

Lemma sin_d2r_congruent (a b : R) :
  congruent a b -> sin (d2r b) = sin (d2r a).
Proof.
  intros [k ->].
  replace (d2r (a + 360 * IZR k)) with (d2r a + 2 * IZR k * PI)
    by (unfold d2r; field).
  apply sin_period_Z.
Qed.

Lemma cos_d2r_congruent (a b : R) :
  congruent a b -> cos (d2r b) = cos (d2r a).
Proof.
  intros [k ->].
  replace (d2r (a + 360 * IZR k)) with (d2r a + 2 * IZR k * PI)
    by (unfold d2r; field).
  apply cos_period_Z.
Qed.

(** X4: the two normalisations compose, each moves its argument by a whole
    number of turns, and each is the identity exactly on its range. *)
Theorem wrap_compose (a : R) :
  wrap180 (wrap360 a) = wrap180 a /\
  wrap360 (wrap180 a) = wrap360 a /\
  (exists k : Z, wrap360 a = a + 360 * IZR k) /\
  (exists k : Z, wrap180 a = a + 360 * IZR k) /\
  (wrap360 a = a <-> 0 <= a < 360) /\
  (wrap180 a = a <-> -180 <= a < 180).
Proof.
  split; [ symmetry; apply wrap180_congruent, congruent_wrap360 | ].
  split; [ symmetry; apply wrap360_congruent, congruent_wrap180 | ].
  split; [ apply congruent_wrap360 | ].
  split; [ apply congruent_wrap180 | ].
  split; split.
  - intros <-. apply wrap360_bounds.
  - apply wrap360_id.
  - intros <-. apply wrap180_bounds.
  - apply wrap180_id.
Qed.

(** ** More on the circular mean *)

Lemma sum_permutation (l l' : list R) : Permutation l l' -> sum l = sum l'.
Proof.
  induction 1 as [ | x l l' _ IH | x y l | l l' l'' _ IH1 _ IH2 ].
  - reflexivity.
  - rewrite !sum_cons, IH. reflexivity.
  - rewrite !sum_cons. ring.
  - rewrite IH1. exact IH2.
Qed.

Lemma sums_permutation (l l' : list R) :
  Permutation l l' -> sin_sum l = sin_sum l' /\ cos_sum l = cos_sum l'.
Proof.
  intros H. unfold sin_sum, cos_sum.
  split; apply sum_permutation, Permutation_map, H.
Qed.

Lemma sums_congruent (l l' : list R) :
  Forall2 congruent l l' -> sin_sum l = sin_sum l' /\ cos_sum l = cos_sum l'.
Proof.
  unfold sin_sum, cos_sum.
  induction 1 as [ | a b l l' Hab _ [IHs IHc] ]; [ split; reflexivity | ].
  cbn [map]. rewrite !sum_cons, IHs, IHc.
  rewrite (sin_d2r_congruent a b Hab), (cos_d2r_congruent a b Hab).
  split; reflexivity.
Qed.

Lemma mean_angle_deg_sums (l l' : list R) :
  sin_sum l = sin_sum l' -> cos_sum l = cos_sum l' ->
  mean_angle_deg l = mean_angle_deg l'.
Proof.
  intros Hs Hc. rewrite !mean_angle_deg_unfold, Hs, Hc. reflexivity.
Qed.

Lemma Forall2_map_r {A B : Type} (P : A -> B -> Prop) (f : A -> B)
    (l : list A) :
  (forall a, P a (f a)) -> Forall2 P l (map f l).
Proof.
  intros H. induction l as [ | a l IH ]; simpl; constructor; auto.
Qed.

Lemma mean_angle_deg_bounds (l : list R) : 0 <= mean_angle_deg l < 360.
Proof.
  rewrite mean_angle_deg_unfold.
  destruct (Rlt_dec (Rabs (sin_sum l)) 1e-12);
    [ destruct (Rlt_dec (Rabs (cos_sum l)) 1e-12) | ];
    try apply wrap360_bounds.
  lra.
Qed.

(** X6: the circular mean lies in [0, 360), does not depend on the order of
    the angles, and only depends on each angle modulo 360: in particular
    normalising the angles first changes nothing. *)
Theorem mean_angle_deg_invariance (l l' : list R) :
  0 <= mean_angle_deg l < 360 /\
  (Permutation l l' -> mean_angle_deg l = mean_angle_deg l') /\
  (Forall2 congruent l l' -> mean_angle_deg l = mean_angle_deg l') /\
  mean_angle_deg (map wrap360 l) = mean_angle_deg l /\
  mean_angle_deg (map wrap180 l) = mean_angle_deg l.
Proof.
  split; [ apply mean_angle_deg_bounds | ].
  split; [ intros H; apply mean_angle_deg_sums; apply sums_permutation, H | ].
  split; [ intros H; apply mean_angle_deg_sums; apply sums_congruent, H | ].
  split; symmetry; apply mean_angle_deg_sums;
    apply sums_congruent, Forall2_map_r;
    auto using congruent_wrap360, congruent_wrap180.
Qed.

(** X7: a single direction is its own mean up to normalisation, and two
    opposite directions cancel: their mean is the degenerate value 0. *)
Theorem mean_angle_deg_single_and_opposite (a : R) :
  mean_angle_deg [a] = wrap360 a /\
  mean_angle_deg [a; a + 180] = 0.
Proof.
  split.
  - rewrite <- (mean_angle_deg_repeat (wrap360 a) 1)
      by (lia || apply wrap360_bounds).
    apply mean_angle_deg_sums; apply sums_congruent;
      repeat constructor; apply congruent_wrap360.
  - assert (Hs : sin_sum [a; a + 180] = 0).
    { unfold sin_sum. cbn [map]. rewrite !sum_cons, sum_nil.
      replace (d2r (a + 180)) with (d2r a + PI) by (unfold d2r; field).
      rewrite neg_sin. ring. }
    assert (Hc : cos_sum [a; a + 180] = 0).
    { unfold cos_sum. cbn [map]. rewrite !sum_cons, sum_nil.
      replace (d2r (a + 180)) with (d2r a + PI) by (unfold d2r; field).
      rewrite neg_cos. ring. }
    apply mean_angle_degenerate; rewrite ?Hs, ?Hc, Rabs_R0; lra.
Qed.

(** ** More on the arctangent *)

Lemma atan2_bounds (y x : R) : - PI < atan2 y x <= PI.
Proof.
  pose proof PI_RGT_0 as Hpi. pose proof (atan_bound (y / x)) as Hb.
  unfold atan2.
  destruct (Rlt_dec 0 x); [ lra | ].
  destruct (Rlt_dec x 0).
  - destruct (Rle_dec 0 y) as [Hy | Hy].
    + assert (y / x <= 0).
      { pose proof (Rinv_lt_0_compat x ltac:(assumption)).
        unfold Rdiv. nra. }
      assert (atan (y / x) <= 0).
      { rewrite <- atan_0.
        destruct (Req_dec (y / x) 0) as [-> | Hne]; [ lra | ].
        apply Rlt_le, atan_increasing. lra. }
      lra.
    + assert (0 < y / x).
      { pose proof (Rinv_lt_0_compat x ltac:(assumption)).
        unfold Rdiv. nra. }
      assert (0 < atan (y / x)).
      { rewrite <- atan_0. apply atan_increasing. lra. }
      lra.
  - destruct (Rlt_dec 0 y); [ lra | ].
    destruct (Rlt_dec y 0); lra.
Qed.

Lemma atan2_scale (k y x : R) : 0 < k -> atan2 (k * y) (k * x) = atan2 y x.
Proof.
  intros Hk. unfold atan2.
  destruct (Rlt_dec 0 x) as [Hx | Hx].
  - destruct (Rlt_dec 0 (k * x)); [ | nra ].
    f_equal. field. lra.
  - destruct (Rlt_dec 0 (k * x)); [ nra | ].
    destruct (Rlt_dec x 0) as [Hx' | Hx'].
    + destruct (Rlt_dec (k * x) 0); [ | nra ].
      assert (Hq : k * y / (k * x) = y / x) by (field; lra).
      rewrite Hq.
      destruct (Rle_dec 0 y); destruct (Rle_dec 0 (k * y));
        try reflexivity; nra.
    + destruct (Rlt_dec (k * x) 0); [ nra | ].
      destruct (Rlt_dec 0 y); destruct (Rlt_dec 0 (k * y));
        try reflexivity; try nra.
      destruct (Rlt_dec y 0); destruct (Rlt_dec (k * y) 0);
        try reflexivity; nra.
Qed.

Lemma sqrt_one_plus_sqr_pos (t : R) : 0 < sqrt (1 + Rsqr t).
Proof. apply sqrt_lt_R0. pose proof (Rle_0_sqr t). lra. Qed.

Lemma norm_right (y x : R) :
  0 < x -> sqrt (x * x + y * y) = x * sqrt (1 + Rsqr (y / x)).
Proof.
  intros Hx.
  replace (x * x + y * y) with (Rsqr x * (1 + Rsqr (y / x)))
    by (unfold Rsqr; field; lra).
  pose proof (Rle_0_sqr (y / x)).
  rewrite sqrt_mult by (try apply Rle_0_sqr; lra).
  rewrite sqrt_Rsqr by lra. reflexivity.
Qed.

Lemma norm_left (y x : R) :
  x < 0 -> sqrt (x * x + y * y) = - x * sqrt (1 + Rsqr (y / x)).
Proof.
  intros Hx.
  replace (x * x + y * y) with ((- x) * (- x) + y * y) by ring.
  rewrite norm_right by lra.
  replace (y / - x) with (- (y / x)) by (field; lra).
  rewrite <- Rsqr_neg. reflexivity.
Qed.

(** A vector is its length times the cosine and sine of its angle. *)
Lemma polar_decomposition (y x : R) :
  sqrt (x * x + y * y) * cos (atan2 y x) = x /\
  sqrt (x * x + y * y) * sin (atan2 y x) = y.
Proof.
  unfold atan2.
  destruct (Rlt_dec 0 x) as [Hx | Hx].
  - rewrite norm_right, cos_atan, sin_atan by exact Hx.
    pose proof (sqrt_one_plus_sqr_pos (y / x)).
    split; field; lra.
  - destruct (Rlt_dec x 0) as [Hx' | Hx'].
    + pose proof (sqrt_one_plus_sqr_pos (y / x)).
      destruct (Rle_dec 0 y).
      * rewrite norm_left, neg_cos, neg_sin, cos_atan, sin_atan by exact Hx'.
        split; field; lra.
      * replace (atan (y / x) - PI) with (- (PI - atan (y / x))) by ring.
        rewrite cos_neg, sin_neg.
        rewrite Rtrigo_facts.cos_pi_minus, Rtrigo_facts.sin_pi_minus.
        rewrite norm_left, cos_atan, sin_atan by exact Hx'.
        split; field; lra.
    + assert (x = 0) by lra. subst x.
      replace (0 * 0 + y * y) with (Rsqr y) by (unfold Rsqr; ring).
      rewrite sqrt_Rsqr_abs.
      destruct (Rlt_dec 0 y).
      * rewrite cos_PI2, sin_PI2, Rabs_right by lra. split; ring.
      * destruct (Rlt_dec y 0).
        -- rewrite cos_neg, sin_neg, cos_PI2, sin_PI2, Rabs_left by lra.
           split; ring.
        -- assert (y = 0) by lra. subst y.
           rewrite Rabs_R0. split; ring.
Qed.

Lemma r2d_le (a b : R) : a <= b -> r2d a <= r2d b.
Proof.
  intros H. unfold r2d. pose proof PI_RGT_0.
  apply Rmult_le_compat_r; [ apply Rlt_le, Rinv_0_lt_compat; lra | lra ].
Qed.

Lemma r2d_PI2 : r2d (PI / 2) = 90.
Proof. unfold r2d. field. apply PI_neq0. Qed.

Lemma r2d_PI : r2d PI = 180.
Proof. unfold r2d. field. apply PI_neq0. Qed.

Lemma r2d_mult (k t : R) : r2d (k * t) = k * r2d t.
Proof. unfold r2d. field. apply PI_neq0. Qed.

Lemma hypot_nonneg (x y : R) : 0 <= hypot x y.
Proof. apply sqrt_pos. Qed.

Lemma hypot_scale (k x y : R) : 0 <= k -> hypot (k * x) (k * y) = k * hypot x y.
Proof.
  intros Hk. unfold hypot.
  replace (k * x * (k * x) + k * y * (k * y))
    with (Rsqr k * (x * x + y * y)) by (unfold Rsqr; ring).
  rewrite sqrt_mult by (try apply Rle_0_sqr; nra).
  rewrite sqrt_Rsqr by exact Hk. reflexivity.
Qed.

Lemma atan2_nonneg_x (y x : R) : 0 <= x -> - (PI / 2) <= atan2 y x <= PI / 2.
Proof.
  intros Hx. pose proof PI_RGT_0. pose proof (atan_bound (y / x)).
  unfold atan2.
  destruct (Rlt_dec 0 x); [ lra | ].
  destruct (Rlt_dec x 0); [ lra | ].
  destruct (Rlt_dec 0 y); [ lra | ].
  destruct (Rlt_dec y 0); lra.
Qed.

(** ** More on the transforms *)

Lemma d2r_r2d (t : R) : d2r (r2d t) = t.
Proof. unfold r2d, d2r. field. apply PI_neq0. Qed.

Lemma sin_d2r_wrap360_r2d (t : R) : sin (d2r (wrap360 (r2d t))) = sin t.
Proof.
  rewrite (sin_d2r_congruent _ _ (congruent_wrap360 (r2d t))).
  rewrite d2r_r2d. reflexivity.
Qed.

Lemma cos_d2r_wrap360_r2d (t : R) : cos (d2r (wrap360 (r2d t))) = cos t.
Proof.
  rewrite (cos_d2r_congruent _ _ (congruent_wrap360 (r2d t))).
  rewrite d2r_r2d. reflexivity.
Qed.

Lemma azimut_xy_south (cam pt : Coord) :
  pX pt - pX cam = 0 -> pY pt - pY cam < 0 -> azimut_xy cam pt = 180.
Proof.
  intros Hx Hy. unfold azimut_xy. rewrite Hx.
  rewrite atan2_left_up by lra.
  unfold Rdiv. rewrite Rmult_0_l, atan_0, Rplus_0_l, r2d_PI.
  apply wrap360_id. lra.
Qed.

Lemma azimut_xy_west (cam pt : Coord) :
  pX pt - pX cam < 0 -> pY pt - pY cam = 0 -> azimut_xy cam pt = 270.
Proof.
  intros Hx Hy. unfold azimut_xy. rewrite Hy.
  unfold atan2.
  destruct (Rlt_dec 0 0); [ lra | ].
  destruct (Rlt_dec 0 (pX pt - pX cam)); [ lra | ].
  destruct (Rlt_dec (pX pt - pX cam) 0); [ | lra ].
  replace (- (PI / 2)) with (-1 * (PI / 2)) by ring.
  rewrite r2d_mult, r2d_PI2.
  rewrite (wrap360_shift _ (-1)); lra.
Qed.

Lemma azimut_xy_north_east (cam pt : Coord) :
  0 < pX pt - pX cam -> pY pt - pY cam = pX pt - pX cam ->
  azimut_xy cam pt = 45.
Proof.
  intros Hx Hy. unfold azimut_xy. rewrite Hy.
  rewrite atan2_right by exact Hx.
  replace (_ / _) with 1 by (field; lra).
  rewrite atan_1.
  replace (r2d (PI / 4)) with 45 by (unfold r2d; field; apply PI_neq0).
  apply wrap360_id. lra.
Qed.

(** X8: the azimuth is measured clockwise from north: a target due north of
    the camera has azimuth 0, north-east 45, east 90, south 180, and west
    270, whatever the distance. *)
Theorem azimut_xy_compass (cam pt : Coord) :
  (pX pt = pX cam -> pY cam < pY pt -> azimut_xy cam pt = 0) /\
  (pX cam < pX pt -> pY pt - pY cam = pX pt - pX cam ->
   azimut_xy cam pt = 45) /\
  (pX cam < pX pt -> pY pt = pY cam -> azimut_xy cam pt = 90) /\
  (pX pt = pX cam -> pY pt < pY cam -> azimut_xy cam pt = 180) /\
  (pX pt < pX cam -> pY pt = pY cam -> azimut_xy cam pt = 270).
Proof.
  repeat split; intros H1 H2.
  - apply azimut_xy_north; lra.
  - apply azimut_xy_north_east; lra.
  - apply azimut_xy_east; lra.
  - apply azimut_xy_south; lra.
  - apply azimut_xy_west; lra.
Qed.

Lemma direction_invariant (cam pt cam' pt' : Coord) (k : R) :
  0 < k ->
  pX pt' - pX cam' = k * (pX pt - pX cam) ->
  pY pt' - pY cam' = k * (pY pt - pY cam) ->
  pZ pt' - pZ cam' = k * (pZ pt - pZ cam) ->
  azimut_xy cam' pt' = azimut_xy cam pt /\
  inclinacion cam' pt' = inclinacion cam pt /\
  dist_geom cam' pt' = k * dist_geom cam pt.
Proof.
  intros Hk Hx Hy Hz. unfold azimut_xy, inclinacion, dist_geom.
  rewrite Hx, Hy, Hz. split; [ | split ].
  - rewrite atan2_scale by exact Hk. reflexivity.
  - rewrite hypot_scale by lra. rewrite atan2_scale by exact Hk.
    reflexivity.
  - set (dx := pX pt - pX cam). set (dy := pY pt - pY cam).
    set (dz := pZ pt - pZ cam).
    replace (k * dx * (k * dx) + k * dy * (k * dy) + k * dz * (k * dz))
      with (Rsqr k * (dx * dx + dy * dy + dz * dz)) by (unfold Rsqr; ring).
    rewrite sqrt_mult by (try apply Rle_0_sqr; nra).
    rewrite sqrt_Rsqr by lra. reflexivity.
Qed.



Lemma inclinacion_bounds (cam pt : Coord) : -90 <= inclinacion cam pt <= 90.
Proof.
  unfold inclinacion.
  pose proof (atan2_nonneg_x (pZ pt - pZ cam)
                (hypot (pX pt - pX cam) (pY pt - pY cam))
                (hypot_nonneg _ _)) as [Hlo Hhi].
  apply r2d_le in Hlo. apply r2d_le in Hhi.
  rewrite r2d_PI2 in Hhi.
  replace (- (PI / 2)) with (-1 * (PI / 2)) in Hlo by ring.
  rewrite r2d_mult, r2d_PI2 in Hlo. lra.
Qed.


(** X11: the point returned by the forward transform is at distance [|dist|]
    from the camera for any angles and any sign of [dist]; a negative
    distance gives the mirror image through the camera; and the transform
    only depends on the two angles modulo 360, so normalising the azimuth
    with [wrap360] does not move the point. *)
Theorem forward_distance_and_periodicity (O : Coord) (A E D : R) (k : Z) :
  dist_geom O (point_of (calc_xyz_from_angles O A E D)) = Rabs D /\
  (let P := point_of (calc_xyz_from_angles O A E D) in
   let Q := point_of (calc_xyz_from_angles O A E (- D)) in
   pX Q - pX O = - (pX P - pX O) /\
   pY Q - pY O = - (pY P - pY O) /\
   pZ Q - pZ O = - (pZ P - pZ O)) /\
  calc_xyz_from_angles O (A + 360 * IZR k) E D
  = calc_xyz_from_angles O A E D /\
  calc_xyz_from_angles O A (E + 360 * IZR k) D
  = calc_xyz_from_angles O A E D /\
  calc_xyz_from_angles O (wrap360 A) E D = calc_xyz_from_angles O A E D.
Proof.
  assert (Hper : forall a b, congruent a b ->
                 forall e, calc_xyz_from_angles O b e D
                           = calc_xyz_from_angles O a e D).
  { intros a b Hab e. unfold calc_xyz_from_angles.
    rewrite (sin_d2r_congruent a b Hab), (cos_d2r_congruent a b Hab).
    reflexivity. }
  split; [ | split; [ | split; [ | split ] ] ].
  - unfold dist_geom. rewrite forward_dx, forward_dy, forward_dz.
    replace (_ + _ + _)
      with (Rsqr D * ((Rsqr (sin (d2r E)) + Rsqr (cos (d2r E)))
                      * (Rsqr (sin (d2r A)) + Rsqr (cos (d2r A)))
                      + Rsqr (sin (d2r E)) * (1 - (Rsqr (sin (d2r A))
                                                   + Rsqr (cos (d2r A))))))
      by (unfold Rsqr; ring).
    rewrite !sin2_cos2.
    replace (Rsqr D * (1 * 1 + Rsqr (sin (d2r E)) * (1 - 1))) with (Rsqr D)
      by ring.
    apply sqrt_Rsqr_abs.
  - cbv zeta. rewrite !forward_dx, !forward_dy, !forward_dz.
    repeat split; ring.
  - apply Hper. exists k. reflexivity.
  - unfold calc_xyz_from_angles.
    assert (Hc : congruent E (E + 360 * IZR k)) by (exists k; reflexivity).
    rewrite (sin_d2r_congruent _ _ Hc), (cos_d2r_congruent _ _ Hc).
    reflexivity.
  - apply Hper, congruent_wrap360.
Qed.

Lemma inverse_forward_point (cam pt : Coord) :
  point_of (calc_xyz_from_angles cam (azimut_xy cam pt)
              (inclinacion cam pt) (dist_geom cam pt)) = pt.
Proof.
  unfold calc_xyz_from_angles, azimut_xy, inclinacion, dist_geom, point_of.
  set (dx := pX pt - pX cam). set (dy := pY pt - pY cam).
  set (dz := pZ pt - pZ cam).
  rewrite d2r_r2d, sin_d2r_wrap360_r2d, cos_d2r_wrap360_r2d.
  assert (Hh : hypot dx dy * hypot dx dy = dx * dx + dy * dy).
  { unfold hypot. apply sqrt_sqrt. nra. }
  rewrite <- Hh.
  destruct (polar_decomposition dz (hypot dx dy)) as [Hc Hs].
  rewrite Hc, Hs.
  destruct (polar_decomposition dx dy) as [Hc' Hs'].
  replace (dy * dy + dx * dx) with (dx * dx + dy * dy) in Hc', Hs' by ring.
  fold (hypot dx dy) in Hc', Hs'.
  rewrite Hc', Hs'. unfold dx, dy, dz.
  destruct pt as [x y z]. cbn [pX pY pZ]. f_equal; ring.
Qed.

(** X12: inverse then forward is the identity: sending the azimuth,
    elevation and distance of any target back through the forward
    transform returns the target, also for the camera's own position and
    for targets straight above or below it. *)
Theorem inverse_forward_roundtrip (cam pt : Coord) :
  point_of (calc_xyz_from_angles cam (azimut_xy cam pt)
              (inclinacion cam pt) (dist_geom cam pt)) = pt.
Proof. exact (inverse_forward_point cam pt). Qed.

(** ** The balance property of the circular mean *)

Lemma sums_about (m : R) (l : list R) :
  sin_sum_about m l
  = sin_sum l * cos (d2r m) - cos_sum l * sin (d2r m) /\
  cos_sum_about m l
  = cos_sum l * cos (d2r m) + sin_sum l * sin (d2r m).
Proof.
  unfold sin_sum_about, cos_sum_about, sin_sum, cos_sum.
  induction l as [ | a l [IHs IHc] ].
  - cbn [map]. rewrite !sum_nil. split; ring.
  - cbn [map]. rewrite !sum_cons, IHs, IHc.
    replace (d2r (a - m)) with (d2r a - d2r m) by (unfold d2r; field).
    rewrite sin_minus, cos_minus. split; ring.
Qed.

Lemma mean_angle_deg_balance (l : list R) :
  Rabs (sin_sum_about (mean_angle_deg l) l) < 1e-12 /\
  -1e-12 < cos_sum_about (mean_angle_deg l) l.
Proof.
  destruct (sums_about (mean_angle_deg l) l) as [Hs Hc].
  rewrite Hs, Hc. clear Hs Hc.
  rewrite mean_angle_deg_unfold.
  set (S := sin_sum l). set (C := cos_sum l).
  assert (Hreg :
    Rabs (S * cos (d2r (wrap360 (r2d (atan2 S C))))
          - C * sin (d2r (wrap360 (r2d (atan2 S C))))) < 1e-12 /\
    -1e-12 < C * cos (d2r (wrap360 (r2d (atan2 S C))))
             + S * sin (d2r (wrap360 (r2d (atan2 S C))))).
  { rewrite sin_d2r_wrap360_r2d, cos_d2r_wrap360_r2d.
    destruct (polar_decomposition S C) as [HC HS].
    pose proof (sqrt_pos (C * C + S * S)) as Hr.
    pose proof (sin2_cos2 (atan2 S C)) as H1. unfold Rsqr in H1.
    set (r := sqrt (C * C + S * S)) in *.
    set (ct := cos (atan2 S C)) in *. set (st := sin (atan2 S C)) in *.
    split.
    - replace (S * ct - C * st) with 0; [ rewrite Rabs_R0; lra | ].
      rewrite <- HC, <- HS. ring.
    - replace (C * ct + S * st) with r; [ lra | ].
      rewrite <- HC, <- HS at 1.
      transitivity (r * (st * st + ct * ct)); [ rewrite H1 | ]; ring. }
  destruct (Rlt_dec (Rabs S) 1e-12) as [HS | HS]; [ | exact Hreg ].
  destruct (Rlt_dec (Rabs C) 1e-12) as [HC | HC]; [ | exact Hreg ].
  rewrite d2r_0, sin_0, cos_0.
  replace (S * 1 - C * 0) with S by ring.
  replace (C * 1 + S * 0) with C by ring.
  split; [ exact HS | ]. apply Rabs_def2 in HC. lra.
Qed.

Lemma mean_angle_deg_balance_regular (l : list R) :
  1e-12 <= Rabs (sin_sum l) \/ 1e-12 <= Rabs (cos_sum l) ->
  sin_sum_about (mean_angle_deg l) l = 0 /\
  cos_sum_about (mean_angle_deg l) l = hypot (sin_sum l) (cos_sum l) /\
  0 < cos_sum_about (mean_angle_deg l) l.
Proof.
  intros Hreg.
  destruct (sums_about (mean_angle_deg l) l) as [Hs Hc].
  rewrite Hs, Hc. clear Hs Hc.
  assert (Hm : mean_angle_deg l
               = wrap360 (r2d (atan2 (sin_sum l) (cos_sum l)))).
  { rewrite mean_angle_deg_unfold.
    destruct (Rlt_dec (Rabs (sin_sum l)) 1e-12); [ | reflexivity ].
    destruct (Rlt_dec (Rabs (cos_sum l)) 1e-12); [ | reflexivity ].
    destruct Hreg; lra. }
  rewrite Hm. clear Hm.
  rewrite sin_d2r_wrap360_r2d, cos_d2r_wrap360_r2d.
  set (S := sin_sum l) in *. set (C := cos_sum l) in *.
  destruct (polar_decomposition S C) as [HC HS].
  pose proof (sin2_cos2 (atan2 S C)) as H1. unfold Rsqr in H1.
  assert (Hr : hypot S C = sqrt (C * C + S * S)).
  { unfold hypot. f_equal. ring. }
  assert (Hpos : 0 < sqrt (C * C + S * S)).
  { apply sqrt_lt_R0.
    destruct Hreg as [H | H].
    - assert (S <> 0) by (intros ->; rewrite Rabs_R0 in H; lra). nra.
    - assert (C <> 0) by (intros ->; rewrite Rabs_R0 in H; lra). nra. }
  rewrite Hr.
  set (r := sqrt (C * C + S * S)) in *.
  set (ct := cos (atan2 S C)) in *. set (st := sin (atan2 S C)) in *.
  assert (Hsin : S * ct - C * st = 0) by (rewrite <- HC, <- HS; ring).
  assert (Hcos : C * ct + S * st = r).
  { rewrite <- HC, <- HS at 1.
    transitivity (r * (st * st + ct * ct)); [ ring | rewrite H1; ring ]. }
  rewrite Hsin, Hcos. repeat split. exact Hpos.
Qed.

(** X13: over exact reals, the circular mean balances the angles.  Measured
    from the mean, the sines of the angles sum to less than 1e-12 in
    magnitude and the cosines to more than -1e-12, for every list; and
    outside the degenerate branch (one of the two sums of the list reaches
    1e-12 in magnitude) the sines sum to exactly 0 and the cosines to the
    length of the resultant vector, which is positive. *)
Theorem mean_angle_deg_balances (l : list R) :
  Rabs (sin_sum_about (mean_angle_deg l) l) < 1e-12 /\
  -1e-12 < cos_sum_about (mean_angle_deg l) l /\
  (1e-12 <= Rabs (sin_sum l) \/ 1e-12 <= Rabs (cos_sum l) ->
   sin_sum_about (mean_angle_deg l) l = 0 /\
   cos_sum_about (mean_angle_deg l) l = hypot (sin_sum l) (cos_sum l) /\
   0 < cos_sum_about (mean_angle_deg l) l).
Proof.
  destruct (mean_angle_deg_balance l) as [Hs Hc].
  split; [ exact Hs | ]. split; [ exact Hc | ].
  apply mean_angle_deg_balance_regular.
Qed.

(** ** More on the calibration *)

Lemma sum_repeat (c : R) (n : nat) : sum (repeat c n) = INR n * c.
Proof.
  induction n as [ | n IH ].
  - simpl. rewrite sum_nil. ring.
  - cbn [repeat]. rewrite sum_cons, IH, S_INR. ring.
Qed.

Lemma calibrate_cases (cfg : Config) :
  ((List.length (collimation_points cfg) < 2)%nat /\
   calibrate cfg = Raise insufficient) \/
  ((2 <= List.length (collimation_points cfg))%nat /\
   exists cal, calibrate cfg = Ok cal /\
     ajuste_ah cal =
       wrap180 (mean_angle_deg
                  (map wrap360 (map (residual_ah (camera cfg))
                                    (collimation_points cfg)))) /\
     ajuste_av cal =
       sum (map (residual_av (camera cfg)) (collimation_points cfg))
       / INR (List.length (collimation_points cfg)) /\
     diagnostics cal
     = map (diagnostic_of (camera cfg)) (collimation_points cfg) /\
     n_points cal = List.length (collimation_points cfg)).
Proof.
  destruct (Nat.lt_ge_cases (List.length (collimation_points cfg)) 2)
    as [Hlt | Hge].
  - left. split; [ exact Hlt | apply calibrate_raises, Hlt ].
  - right. split; [ exact Hge | ].
    eexists. split; [ apply calibrate_returns, Hge | ].
    cbn. repeat split.
Qed.

(** X14: over exact reals, the diagnostics of a calibration list the
    collimation points in their order, one record each with the point's
    name and readings, and every record has AH_real in [0, 360), AV_real
    in [-90, 90], dAH in [-180, 180) equal to AH_real - AH_obs up to whole
    turns, dAV equal to AV_real - AV_obs, a non-negative geometric
    distance, and Dist_res equal to Dist_geom - Dist_obs.  (The ranges are
    those of exact arithmetic: on the doubles [F64.wrap360] can return
    360.0.) *)
Theorem calibrate_diagnostics (cfg : Config) (cal : CalibrationResult) :
  calibrate cfg = Ok cal ->
  n_points cal = List.length (collimation_points cfg) /\
  List.length (diagnostics cal) = List.length (collimation_points cfg) /\
  map d_name (diagnostics cal) = map name (collimation_points cfg) /\
  map d_AH_obs (diagnostics cal) = map AH_obs (collimation_points cfg) /\
  map d_AV_obs (diagnostics cal) = map AV_obs (collimation_points cfg) /\
  map Dist_obs (diagnostics cal) = map get_D_obs (collimation_points cfg) /\
  Forall (fun dg : Diagnostic =>
            0 <= AH_real dg < 360 /\
            -90 <= AV_real dg <= 90 /\
            -180 <= dAH dg < 180 /\
            congruent (AH_real dg - d_AH_obs dg) (dAH dg) /\
            dAV dg = AV_real dg - d_AV_obs dg /\
            0 <= Dist_geom dg /\
            Dist_res dg = Dist_geom dg - Dist_obs dg)
         (diagnostics cal).
Proof.
  intros Hcal.
  destruct (calibrate_cases cfg) as [[_ Hr] | [_ [cal' [Hr H]]]];
    rewrite Hr in Hcal; [ discriminate | ].
  injection Hcal as ->. destruct H as [_ [_ [Hd Hn]]].
  rewrite Hd, Hn, length_map, !map_map. cbn [diagnostic_of d_name d_AH_obs
    d_AV_obs Dist_obs].
  repeat split; try reflexivity.
  apply Forall_map, Forall_forall. intros pt _.
  cbn [diagnostic_of AH_real AV_real dAH dAV d_AH_obs d_AV_obs Dist_geom
       Dist_obs Dist_res].
  repeat split; try reflexivity;
    try apply azimut_xy_bounds; try apply inclinacion_bounds;
    try apply wrap180_bounds.
  - apply congruent_wrap180.
  - apply sqrt_pos.
Qed.

Lemma calibrate_diagnostics_example :
  exists cal, calibrate cfg_end_to_end = Ok cal /\
    n_points cal = 2%nat /\
    map d_name (diagnostics cal) = ["PT1"; "PT2"]%string.
Proof.
  pose proof (calibrate_returns cfg_end_to_end ltac:(simpl; lia)) as Hc.
  eexists. split; [ exact Hc | ].
  pose proof (calibrate_diagnostics cfg_end_to_end _ Hc)
    as [Hn [_ [Hnames _]]].
  split; [ exact Hn | exact Hnames ].
Defined.

Lemma congruent_minus (a b c : R) :
  congruent a b -> congruent (c - a) (c - b).
Proof. intros [k ->]. exists (- k)%Z. rewrite opp_IZR. ring. Qed.

Lemma residuals_same_sighting (cam : Coord) (p q : ColPoint) :
  same_sighting p q ->
  residual_ah cam p = residual_ah cam q /\
  residual_av cam p = residual_av cam q.
Proof.
  intros [Hxyz [Hah Hav]]. unfold residual_ah, residual_av.
  rewrite Hxyz, Hav. split; [ | reflexivity ].
  apply wrap180_congruent, congruent_minus, Hah.
Qed.

Lemma biases_of_residuals (cfg cfg' : Config) :
  List.length (collimation_points cfg')
  = List.length (collimation_points cfg) ->
  mean_angle_deg (map wrap360 (map (residual_ah (camera cfg'))
                                   (collimation_points cfg')))
  = mean_angle_deg (map wrap360 (map (residual_ah (camera cfg))
                                     (collimation_points cfg))) ->
  sum (map (residual_av (camera cfg')) (collimation_points cfg'))
  = sum (map (residual_av (camera cfg)) (collimation_points cfg)) ->
  biases (calibrate cfg') = biases (calibrate cfg).
Proof.
  intros Hlen Hah Hav.
  destruct (calibrate_cases cfg) as [[Hn Hr] | [Hn [cal [Hr [H1 [H2 _]]]]]];
    destruct (calibrate_cases cfg')
      as [[Hn' Hr'] | [Hn' [cal' [Hr' [H1' [H2' _]]]]]];
    rewrite Hr, Hr'; try lia; [ reflexivity | ].
  cbn [biases]. rewrite H1, H2, H1', H2', Hah, Hav, Hlen. reflexivity.
Qed.

(** X15: the two biases use the collimation points only through their
    coordinates, their vertical readings and their horizontal readings
    modulo 360; the names and the observed distances play no part, and
    neither does the order of the points. *)
Theorem biases_invariance (cfg cfg' : Config) :
  camera cfg' = camera cfg ->
  (Forall2 same_sighting (collimation_points cfg) (collimation_points cfg')
   -> biases (calibrate cfg') = biases (calibrate cfg)) /\
  (Permutation (collimation_points cfg) (collimation_points cfg')
   -> biases (calibrate cfg') = biases (calibrate cfg)).
Proof.
  intros Hcam. split; intros H.
  - apply biases_of_residuals; rewrite ?Hcam.
    + symmetry. eapply Forall2_length, H.
    + f_equal. f_equal.
      induction H as [ | p q l l' Hpq _ IH ]; [ reflexivity | ].
      cbn [map]. rewrite IH.
      rewrite (proj1 (residuals_same_sighting (camera cfg) p q Hpq)).
      reflexivity.
    + f_equal.
      induction H as [ | p q l l' Hpq _ IH ]; [ reflexivity | ].
      cbn [map]. rewrite IH.
      rewrite (proj2 (residuals_same_sighting (camera cfg) p q Hpq)).
      reflexivity.
  - apply biases_of_residuals; rewrite ?Hcam.
    + symmetry. apply Permutation_length, H.
    + apply mean_angle_deg_sums; apply sums_permutation;
        symmetry; do 2 apply Permutation_map; exact H.
    + apply sum_permutation. symmetry. apply Permutation_map, H.
Qed.

Lemma biases_invariance_example :
  biases (calibrate cfg_end_to_end_swapped)
  = biases (calibrate cfg_end_to_end).
Proof.
  apply (proj2 (biases_invariance cfg_end_to_end cfg_end_to_end_swapped
                  eq_refl)).
  apply perm_swap.
Defined.

Lemma translate_direction (v cam pt : Coord) :
  azimut_xy (translate v cam) (translate v pt) = azimut_xy cam pt /\
  inclinacion (translate v cam) (translate v pt) = inclinacion cam pt /\
  dist_geom (translate v cam) (translate v pt) = dist_geom cam pt.
Proof.
  destruct (direction_invariant cam pt (translate v cam) (translate v pt) 1)
    as [Ha [Hi Hd]]; [ lra | simpl; lra .. | ].
  rewrite Rmult_1_l in Hd. repeat split; assumption.
Qed.

(** X16: calibration only sees positions relative to the camera: moving the
    camera and all the collimation points by one same vector gives the
    same outcome, diagnostics included. *)
Theorem calibrate_translation_invariant (v : Coord) (cfg : Config) :
  calibrate (translate_config v cfg) = calibrate cfg.
Proof.
  assert (Hlen : List.length (collimation_points (translate_config v cfg))
                 = List.length (collimation_points cfg))
    by (simpl; apply length_map).
  destruct (Nat.lt_ge_cases (List.length (collimation_points cfg)) 2)
    as [Hlt | Hge].
  - rewrite !calibrate_raises by (rewrite ?Hlen; exact Hlt). reflexivity.
  - rewrite !calibrate_returns by (rewrite ?Hlen; exact Hge).
    rewrite Hlen. cbn [translate_config camera collimation_points].
    rewrite !(map_map (translate_point v)).
    assert (Hah : forall pt, residual_ah (translate v (camera cfg))
                                         (translate_point v pt)
                             = residual_ah (camera cfg) pt).
    { intros pt. unfold residual_ah. cbn [translate_point xyz AH_obs].
      rewrite (proj1 (translate_direction v (camera cfg) pt)).
      reflexivity. }
    assert (Hav : forall pt, residual_av (translate v (camera cfg))
                                         (translate_point v pt)
                             = residual_av (camera cfg) pt).
    { intros pt. unfold residual_av. cbn [translate_point xyz AV_obs].
      rewrite (proj1 (proj2 (translate_direction v (camera cfg) pt))).
      reflexivity. }
    assert (Hdg : forall pt, diagnostic_of (translate v (camera cfg))
                                           (translate_point v pt)
                             = diagnostic_of (camera cfg) pt).
    { intros pt. unfold diagnostic_of. rewrite Hah, Hav.
      cbn [translate_point xyz AH_obs AV_obs name].
      destruct (translate_direction v (camera cfg) pt) as [-> [-> ->]].
      reflexivity. }
    rewrite (map_ext (fun pt => residual_ah (translate v (camera cfg))
                                            (translate_point v pt))
                     (residual_ah (camera cfg)) Hah).
    rewrite (map_ext (fun pt => residual_av (translate v (camera cfg))
                                            (translate_point v pt))
                     (residual_av (camera cfg)) Hav).
    rewrite (map_ext (fun pt => diagnostic_of (translate v (camera cfg))
                                              (translate_point v pt))
                     (diagnostic_of (camera cfg)) Hdg).
    reflexivity.
Qed.

Lemma mean_angle_deg_map_wrap360 (l : list R) :
  mean_angle_deg (map wrap360 l) = mean_angle_deg l.
Proof.
  symmetry. apply mean_angle_deg_sums; apply sums_congruent;
    apply Forall2_map_r, congruent_wrap360.
Qed.

Lemma sum_map_minus {A : Type} (f : A -> R) (c : R) (l : list A) :
  sum (map (fun x => f x - c) l) = sum (map f l) - INR (List.length l) * c.
Proof.
  induction l as [ | x l IH ].
  - simpl. rewrite sum_nil. ring.
  - cbn [map List.length]. rewrite !sum_cons, IH, S_INR. ring.
Qed.

Lemma sin_sum_about_congruent (m m' : R) (l : list R) :
  congruent m m' -> sin_sum_about m' l = sin_sum_about m l.
Proof.
  intros H.
  rewrite (proj1 (sums_about m' l)), (proj1 (sums_about m l)).
  rewrite (sin_d2r_congruent m m' H), (cos_d2r_congruent m m' H).
  reflexivity.
Qed.

(** X17: the published biases are the means of the published residuals:
    [ajuste_ah] is the circular mean of the dAH of the diagnostics, put in
    signed form, and [ajuste_av] the arithmetic mean of their dAV; once the
    biases are taken off, the vertical residuals sum to 0 and the sines of
    the horizontal ones sum to 0 up to 1e-12. *)
Theorem biases_are_means (cfg : Config) (cal : CalibrationResult) :
  calibrate cfg = Ok cal ->
  ajuste_ah cal = wrap180 (mean_angle_deg (map dAH (diagnostics cal))) /\
  ajuste_av cal * INR (n_points cal) = sum (map dAV (diagnostics cal)) /\
  sum (map (fun dg => dAV dg - ajuste_av cal) (diagnostics cal)) = 0 /\
  Rabs (sin_sum_about (ajuste_ah cal) (map dAH (diagnostics cal))) < 1e-12.
Proof.
  intros Hcal.
  destruct (calibrate_cases cfg)
    as [[_ Hr] | [Hn [cal' [Hr [Hah [Hav [Hdg Hnp]]]]]]];
    rewrite Hr in Hcal; [ discriminate | ].
  injection Hcal as ->.
  set (pts := collimation_points cfg) in *.
  assert (HN : INR (List.length pts) <> 0).
  { apply not_0_INR. lia. }
  assert (HdAH : map dAH (diagnostics cal) = map (residual_ah (camera cfg)) pts).
  { rewrite Hdg, map_map. reflexivity. }
  assert (HdAV : map dAV (diagnostics cal) = map (residual_av (camera cfg)) pts).
  { rewrite Hdg, map_map. reflexivity. }
  assert (H1 : ajuste_ah cal
               = wrap180 (mean_angle_deg (map dAH (diagnostics cal)))).
  { rewrite Hah, HdAH, mean_angle_deg_map_wrap360. reflexivity. }
  assert (H2 : ajuste_av cal * INR (n_points cal)
               = sum (map dAV (diagnostics cal))).
  { rewrite Hav, Hnp, HdAV. field. exact HN. }
  split; [ exact H1 | ]. split; [ exact H2 | ]. split.
  - rewrite sum_map_minus, <- H2, Hnp, Hdg, length_map. ring.
  - rewrite H1.
    rewrite (sin_sum_about_congruent _ _ _ (congruent_wrap180 _)).
    apply mean_angle_deg_balance.
Qed.

Lemma biases_are_means_example :
  exists cal, calibrate cfg_end_to_end = Ok cal /\
    sum (map (fun dg => dAV dg - ajuste_av cal) (diagnostics cal)) = 0.
Proof.
  pose proof (calibrate_returns cfg_end_to_end ltac:(simpl; lia)) as Hc.
  eexists. split; [ exact Hc | ].
  exact (proj1 (proj2 (proj2 (biases_are_means cfg_end_to_end _ Hc)))).
Defined.

(** X18: an instrument whose readings are off by constant amounts, [b]
    horizontally (in (-180, 180]) and [v] vertically, is fully corrected:
    calibrating on at least two such references publishes [ajuste_ah = -b]
    and [ajuste_av = -v], and /api/compute then maps the readings of any
    target (true azimuth + b, true elevation + v, true distance) to the
    target's own coordinates. *)
Theorem constant_bias_corrected
    (cfg : Config) (st : State) (target : Coord) (b v : R) :
  (2 <= List.length (collimation_points cfg))%nat ->
  -180 < b <= 180 ->
  Forall (fun pt : ColPoint =>
            AH_obs pt = azimut_xy (camera cfg) pt + b /\
            AV_obs pt = inclinacion (camera cfg) pt + v)
         (collimation_points cfg) ->
  exists (cal : CalibrationResult) (w1 : World) (r : ComputedPoint),
    api_calibrate {| disk := Some cfg; STATE := st |} = (Ok cal, w1) /\
    ajuste_ah cal = - b /\
    ajuste_av cal = - v /\
    api_compute_point
      {| p_AH_obs := Some (azimut_xy (camera cfg) target + b);
         p_AV_obs := Some (inclinacion (camera cfg) target + v);
         p_D_obs := Some (dist_geom (camera cfg) target) |} w1
    = (Ok r, w1) /\
    {| pX := r_X r; pY := r_Y r; pZ := r_Z r |} = target.
Proof.
  intros Hlen Hb Hobs.
  destruct (ajuste_ah_uniform_offset cfg b Hlen Hb) as [cal [Hcal Hah]].
  { eapply Forall_impl; [ | exact Hobs ]. intros pt [H _]. exact H. }
  assert (Hav : ajuste_av cal = - v).
  { rewrite (calibrate_returns cfg Hlen) in Hcal. injection Hcal as <-.
    cbn [ajuste_av]. rewrite (map_const_repeat _ (- v)).
    - rewrite sum_repeat. field. apply not_0_INR. lia.
    - eapply Forall_impl; [ | exact Hobs ].
      intros pt [_ H]. unfold residual_av. rewrite H. ring. }
  exists cal. eexists. eexists.
  split.
  { rewrite api_calibrate_run. cbn [disk STATE]. rewrite Hcal. reflexivity. }
  split; [ exact Hah | ]. split; [ exact Hav | ].
  split; [ apply api_compute_point_run; reflexivity | ].
  cbn [r_X r_Y r_Z STATE_set_loaded STATE_update st_ajuste_ah st_ajuste_av].
  rewrite Hah, Hav.
  replace (azimut_xy (camera cfg) target + b + - b)
    with (azimut_xy (camera cfg) target) by ring.
  replace (inclinacion (camera cfg) target + v + - v)
    with (inclinacion (camera cfg) target) by ring.
  rewrite (wrap360_id _ (azimut_xy_bounds _ _)).
  pose proof (inverse_forward_point (camera cfg) target) as H.
  unfold point_of in H.
  destruct (calc_xyz_from_angles _ _ _ _) as [[x y] z].
  exact H.
Qed.

Lemma constant_bias_corrected_example :
  exists (cal : CalibrationResult) (w1 : World) (r : ComputedPoint),
    api_calibrate {| disk := Some cfg_end_to_end; STATE := STATE_init |}
    = (Ok cal, w1) /\
    ajuste_ah cal = - (1) /\
    ajuste_av cal = - 0 /\
    api_compute_point
      {| p_AH_obs := Some (azimut_xy (camera cfg_end_to_end) station + 1);
         p_AV_obs := Some (inclinacion (camera cfg_end_to_end) station + 0);
         p_D_obs := Some (dist_geom (camera cfg_end_to_end) station) |} w1
    = (Ok r, w1) /\
    {| pX := r_X r; pY := r_Y r; pZ := r_Z r |} = station.
Proof.
  apply (constant_bias_corrected cfg_end_to_end STATE_init station 1 0).
  - simpl. lia.
  - lra.
  - assert (Hh : forall x y, x * x + y * y = 100 * 100 -> 0 < hypot x y).
    { intros x y H. unfold hypot. rewrite H. apply sqrt_lt_R0. lra. }
    repeat constructor; cbn [AH_obs AV_obs camera cfg_end_to_end xyz].
    + rewrite azimut_xy_north; simpl; lra.
    + rewrite inclinacion_level; [ lra | simpl; ring | apply Hh; simpl; ring ].
    + rewrite azimut_xy_east; simpl; lra.
    + rewrite inclinacion_level; [ lra | simpl; ring | apply Hh; simpl; ring ].
Defined.

(** ** The cache through the routes *)

Lemma published_eq (st : State) (cal : CalibrationResult) :
  STATE_set_loaded (STATE_update st cal) = published cal.
Proof. reflexivity. Qed.

Lemma ensure_state_run (w : World) :
  ensure_state w =
    if loaded (STATE w) then (Ok tt, w)
    else
      match disk w with
      | None => (Raise (FileNotFoundError "No existe config.json"), w)
      | Some cfg =>
          match calibrate cfg with
          | Raise e => (Raise e, w)
          | Ok cal => (Ok tt, {| disk := disk w; STATE := published cal |})
          end
      end.
Proof.
  unfold ensure_state, bind, get_STATE, load_config, lift, modify_STATE, ret.
  destruct (loaded (STATE w)); cbn [negb]; [ reflexivity | ].
  destruct (disk w) as [ cfg | ] eqn:Hd; [ | reflexivity ].
  destruct (calibrate cfg); cbn; rewrite ?Hd; reflexivity.
Qed.


Lemma ensure_state_cache (w : World) :
  cache_step (STATE w) (STATE (snd (ensure_state w))) /\
  disk (snd (ensure_state w)) = disk w.
Proof.
  rewrite ensure_state_run.
  destruct (loaded (STATE w)); [ split; [ left | ]; reflexivity | ].
  destruct (disk w) as [ cfg | ] eqn:Hd;
    [ | split; [ left; reflexivity | exact Hd ] ].
  destruct (calibrate cfg) as [ cal | e ] eqn:Hc;
    [ | split; [ left; reflexivity | exact Hd ] ].
  split; [ | reflexivity ].
  right. exists cfg, cal. split; [ exact Hc | reflexivity ].
Qed.

Lemma api_compute_point_world (payload : Payload) (w : World) :
  snd (api_compute_point payload w) = snd (ensure_state w).
Proof.
  unfold api_compute_point. unfold bind at 1.
  destruct (ensure_state w) as [[ [] | e ] w1]; [ | reflexivity ].
  unfold bind, load_config, lift, get_STATE, ret.
  destruct (disk w1); [ | reflexivity ].
  destruct (parse_num (p_AH_obs payload)); [ | reflexivity ].
  destruct (parse_num (p_AV_obs payload)); [ | reflexivity ].
  destruct (parse_num (p_D_obs payload)); [ | reflexivity ].
  destruct (calc_xyz_from_angles _ _ _ _) as [[x y] z]. reflexivity.
Qed.

Lemma api_get_config_world (w : World) :
  snd (api_get_config w) = w \/ snd (api_get_config w) = snd (ensure_state w).
Proof.
  unfold api_get_config, bind, load_config, get_STATE, ret.
  destruct (disk w); [ | left; reflexivity ].
  destruct (ensure_state w) as [[ [] | e ] w1]; right; reflexivity.
Qed.

Lemma api_set_config_run (strip : string -> string) (payload : RawConfig)
    (w : World) :
  api_set_config strip payload w =
    match normalize_config strip payload with
    | Throw e => (Throw e, w)
    | Return cfg =>
        match calibrate cfg with
        | Raise e => (Throw (Builtin e), {| disk := Some cfg; STATE := STATE w |})
        | Ok cal =>
            (Return cal, {| disk := Some cfg; STATE := published cal |})
        end
    end.
Proof.
  unfold api_set_config, bind_route, save_config.
  destruct (normalize_config strip payload) as [ cfg | e ]; [ | reflexivity ].
  unfold of_M, bind, load_config, lift, modify_STATE, ret. cbn [disk STATE].
  destruct (calibrate cfg); reflexivity.
Qed.




Lemma run_snoc (strip : string -> string) (file : option Config)
    (evs : list event) (ev : event) :
  run strip file (evs ++ [ev]) = after strip ev (run strip file evs).
Proof. unfold run. rewrite fold_left_app. reflexivity. Qed.




Lemma api_get_config_run (w : World) :
  api_get_config w =
    match disk w with
    | None => (Raise (FileNotFoundError "No existe config.json"), w)
    | Some cfg =>
        match ensure_state w with
        | (Ok _, w') => (Ok (cfg, view_of (STATE w')), w')
        | (Raise e, w') => (Raise e, w')
        end
    end.
Proof.
  unfold api_get_config, bind, load_config, get_STATE, ret.
  destruct (disk w); [ | reflexivity ].
  destruct (ensure_state w) as [[ [] | e ] w1]; reflexivity.
Qed.

Lemma ensure_state_ok_loaded (w w' : World) :
  ensure_state w = (Ok tt, w') -> loaded (STATE w') = true.
Proof.
  rewrite ensure_state_run.
  destruct (loaded (STATE w)) eqn:Hl.
  - intros H. injection H as <-. exact Hl.
  - destruct (disk w) as [ cfg | ]; [ | discriminate ].
    destruct (calibrate cfg); [ | discriminate ].
    intros H. injection H as <-. reflexivity.
Qed.

Lemma api_compute_point_ok (payload : Payload) (w w' : World)
    (r : ComputedPoint) :
  api_compute_point payload w = (Ok r, w') ->
  loaded (STATE w') = true /\
  r_ajuste_ah r = st_ajuste_ah (STATE w') /\
  r_ajuste_av r = st_ajuste_av (STATE w').
Proof.
  intros H. unfold api_compute_point in H. unfold bind at 1 in H.
  destruct (ensure_state w) as [[ [] | e ] w1] eqn:He; [ | discriminate ].
  pose proof (ensure_state_ok_loaded w w1 He) as Hl1.
  unfold bind, load_config, lift, get_STATE, ret in H.
  destruct (disk w1); [ | discriminate ].
  destruct (parse_num (p_AH_obs payload)); [ | discriminate ].
  destruct (parse_num (p_AV_obs payload)); [ | discriminate ].
  destruct (parse_num (p_D_obs payload)); [ | discriminate ].
  destruct (calc_xyz_from_angles _ _ _ _) as [[x y] z].
  injection H as <- <-. repeat split. exact Hl1.
Qed.

(** X20: [ensure_state] calibrates at most once: with [loaded] true it does
    nothing, whatever the file holds by then; with [loaded] false it
    publishes the calibration of the file, or raises (no file, or fewer
    than 2 points) and leaves the world as it was; after a success a
    second call changes nothing. *)
Theorem ensure_state_once (w : World) :
  (loaded (STATE w) = true -> ensure_state w = (Ok tt, w)) /\
  (loaded (STATE w) = false ->
   match disk w with
   | None =>
       ensure_state w
       = (Raise (FileNotFoundError "No existe config.json"), w)
   | Some cfg =>
       match calibrate cfg with
       | Raise e => ensure_state w = (Raise e, w)
       | Ok cal =>
           ensure_state w
           = (Ok tt, {| disk := disk w; STATE := published cal |})
       end
   end) /\
  (forall w', ensure_state w = (Ok tt, w') ->
     loaded (STATE w') = true /\ ensure_state w' = (Ok tt, w')) /\
  (forall e w', ensure_state w = (Raise e, w') -> w' = w).
Proof.
  assert (H1 : loaded (STATE w) = true -> ensure_state w = (Ok tt, w)).
  { intros H. rewrite ensure_state_run, H. reflexivity. }
  assert (H2 : loaded (STATE w) = false ->
               match disk w with
               | None =>
                   ensure_state w
                   = (Raise (FileNotFoundError "No existe config.json"), w)
               | Some cfg =>
                   match calibrate cfg with
                   | Raise e => ensure_state w = (Raise e, w)
                   | Ok cal =>
                       ensure_state w
                       = (Ok tt, {| disk := disk w; STATE := published cal |})
                   end
               end).
  { intros H. rewrite ensure_state_run, H.
    destruct (disk w) as [ cfg | ]; [ | reflexivity ].
    destruct (calibrate cfg); reflexivity. }
  split; [ exact H1 | ]. split; [ exact H2 | ]. split.
  - intros w' Hw'.
    assert (Hl : loaded (STATE w') = true).
    { destruct (loaded (STATE w)) eqn:Hl.
      - rewrite (H1 eq_refl) in Hw'. injection Hw' as <-. exact Hl.
      - specialize (H2 eq_refl).
        destruct (disk w) as [ cfg | ];
          [ | rewrite H2 in Hw'; discriminate ].
        destruct (calibrate cfg); rewrite H2 in Hw';
          [ injection Hw' as <-; reflexivity | discriminate ]. }
    split; [ exact Hl | ].
    rewrite ensure_state_run, Hl. reflexivity.
  - intros e w' Hw'.
    destruct (loaded (STATE w)) eqn:Hl.
    + rewrite (H1 eq_refl) in Hw'. discriminate.
    + specialize (H2 eq_refl).
      destruct (disk w) as [ cfg | ];
        [ | rewrite H2 in Hw'; injection Hw' as _ <-; reflexivity ].
      destruct (calibrate cfg); rewrite H2 in Hw';
        [ discriminate | injection Hw' as _ <-; reflexivity ].
Qed.

Lemma api_compute_point_loaded (payload : Payload) (w : World) :
  loaded (STATE w) = true ->
  api_compute_point payload w =
    match disk w with
    | None => (Raise (FileNotFoundError "No existe config.json"), w)
    | Some cfg =>
        match parse_num (p_AH_obs payload) with
        | Raise e => (Raise e, w)
        | Ok ah =>
        match parse_num (p_AV_obs payload) with
        | Raise e => (Raise e, w)
        | Ok av =>
        match parse_num (p_D_obs payload) with
        | Raise e => (Raise e, w)
        | Ok d =>
            let ah_corr := wrap360 (ah + st_ajuste_ah (STATE w)) in
            let av_corr := av + st_ajuste_av (STATE w) in
            let xyz := calc_xyz_from_angles (camera cfg) ah_corr av_corr d in
            (Ok {| r_X := fst (fst xyz); r_Y := snd (fst xyz);
                   r_Z := snd xyz;
                   r_AH_obs := ah; r_AV_obs := av; r_D_obs := d;
                   AH_corr := ah_corr; AV_corr := av_corr;
                   r_ajuste_ah := st_ajuste_ah (STATE w);
                   r_ajuste_av := st_ajuste_av (STATE w) |}, w)
        end end end
    end.
Proof.
  intros Hl. unfold api_compute_point. unfold bind at 1.
  rewrite ensure_state_loaded by exact Hl.
  unfold bind, load_config, lift, get_STATE, ret.
  destruct (disk w); [ | reflexivity ].
  destruct (parse_num (p_AH_obs payload)); [ | reflexivity ].
  destruct (parse_num (p_AV_obs payload)); [ | reflexivity ].
  destruct (parse_num (p_D_obs payload)); [ | reflexivity ].
  cbv zeta.
  destruct (calc_xyz_from_angles _ _ _ _) as [[x y] z]. reflexivity.
Qed.

(** X21: /api/compute never moves the file and touches the cache only through
    the first calibration; when it answers, the cache is loaded and the
    answer echoes the biases of the cache; with a loaded cache it changes
    nothing at all, whether it answers or raises.  With a loaded cache and
    no file it raises FileNotFoundError.  With a loaded cache and a file,
    for a payload whose three members are each a number within the range
    of [float], missing or null, and over exact reals (where nothing
    overflows): it answers when the three numbers are there, and raises
    the ValueError of an empty number when one is missing or null. *)
Theorem api_compute_point_effects (payload : Payload) (w : World) :
  disk (snd (api_compute_point payload w)) = disk w /\
  snd (api_compute_point payload w) = snd (ensure_state w) /\
  (forall r w', api_compute_point payload w = (Ok r, w') ->
     loaded (STATE w') = true /\
     r_ajuste_ah r = st_ajuste_ah (STATE w') /\
     r_ajuste_av r = st_ajuste_av (STATE w')) /\
  (loaded (STATE w) = true ->
   snd (api_compute_point payload w) = w /\
   match disk w with
   | None =>
       fst (api_compute_point payload w)
       = Raise (FileNotFoundError "No existe config.json")
   | Some cfg =>
       match p_AH_obs payload, p_AV_obs payload, p_D_obs payload with
       | Some _, Some _, Some _ =>
           is_ok (fst (api_compute_point payload w)) = true
       | _, _, _ =>
           fst (api_compute_point payload w)
           = Raise (ValueError "Valor numérico vacío")
       end
   end).
Proof.
  split; [ rewrite api_compute_point_world; apply ensure_state_cache | ].
  split; [ apply api_compute_point_world | ].
  split.
  - intros r w' H. exact (api_compute_point_ok payload w w' r H).
  - intros Hl. rewrite (api_compute_point_loaded payload w Hl).
    destruct (disk w); [ | split; reflexivity ].
    destruct (p_AH_obs payload); [ | split; reflexivity ].
    destruct (p_AV_obs payload); [ | split; reflexivity ].
    destruct (p_D_obs payload); split; reflexivity.
Qed.

Lemma ensure_state_publishes (w : World) :
  STATE (snd (ensure_state w)) = STATE w \/
  exists cfg cal,
    disk w = Some cfg /\ calibrate cfg = Ok cal /\
    STATE (snd (ensure_state w)) = published cal.
Proof.
  rewrite ensure_state_run.
  destruct (loaded (STATE w)); [ left; reflexivity | ].
  destruct (disk w) as [ cfg | ] eqn:Hd; [ | left; reflexivity ].
  destruct (calibrate cfg) as [ cal | e ] eqn:Hc; [ | left; reflexivity ].
  right. exists cfg, cal. repeat split. exact Hc.
Qed.

Lemma after_publishes (strip : string -> string) (ev : event) (w : World) :
  STATE (after strip ev w) = STATE w \/
  exists cfg cal,
    (disk w = Some cfg \/ disk (after strip ev w) = Some cfg) /\
    calibrate cfg = Ok cal /\
    STATE (after strip ev w) = published cal.
Proof.
  assert (He : forall w1, w1 = snd (ensure_state w) ->
            STATE w1 = STATE w \/
            exists cfg cal,
              (disk w = Some cfg \/ disk w1 = Some cfg) /\
              calibrate cfg = Ok cal /\ STATE w1 = published cal).
  { intros w1 ->.
    destruct (ensure_state_publishes w) as [H | [cfg [cal [Hd [Hc Hs]]]]];
      [ left; exact H | ].
    right. exists cfg, cal. split; [ left; exact Hd | ].
    split; assumption. }
  destruct ev; cbn [after].
  - destruct (api_get_config_world w) as [-> | H];
      [ left; reflexivity | apply He, H ].
  - rewrite api_set_config_run.
    destruct (normalize_config strip payload) as [ cfg | e ];
      [ | left; reflexivity ].
    destruct (calibrate cfg) as [ cal | e ] eqn:Hc; [ | left; reflexivity ].
    right. exists cfg, cal. split; [ right; reflexivity | ].
    split; [ exact Hc | reflexivity ].
  - rewrite api_calibrate_run.
    destruct (disk w) as [ cfg | ] eqn:Hd; [ | left; reflexivity ].
    destruct (calibrate cfg) as [ cal | e ] eqn:Hc; [ | left; reflexivity ].
    right. exists cfg, cal. split; [ left; reflexivity | ].
    split; [ exact Hc | reflexivity ].
  - apply He, api_compute_point_world.
  - apply He. reflexivity.
  - left. reflexivity.
Qed.

Lemma run_published (strip : string -> string) (file : option Config)
    (evs : list event) :
  STATE (run strip file evs) = STATE_init \/
  published_in_run strip file evs (STATE (run strip file evs)).
Proof.
  induction evs as [ | ev evs IH ] using rev_ind.
  - left. reflexivity.
  - rewrite run_snoc.
    destruct (after_publishes strip ev (run strip file evs))
      as [Hs | [cfg [cal [Hd [Hc Hs]]]]].
    + rewrite Hs.
      destruct IH as [IH | [evs1 [evs2 [cfg [cal [He [Hd [Hc Hp]]]]]]]];
        [ left; exact IH | right ].
      exists evs1, (evs2 ++ [ev]), cfg, cal.
      split; [ rewrite app_assoc, <- He; reflexivity | ].
      repeat split; assumption.
    + right. rewrite Hs. destruct Hd as [Hd | Hd].
      * exists evs, [ev], cfg, cal. repeat split; assumption.
      * exists (evs ++ [ev]), [], cfg, cal. rewrite app_nil_r, run_snoc.
        repeat split; assumption.
Qed.

Lemma ensure_state_published_in_run (strip : string -> string)
    (file : option Config) (evs : list event) (w' : World) :
  ensure_state (run strip file evs) = (Ok tt, w') ->
  loaded (STATE w') = true /\
  published_in_run strip file evs (STATE w').
Proof.
  intros He. split; [ exact (ensure_state_ok_loaded _ _ He) | ].
  rewrite ensure_state_run in He.
  destruct (loaded (STATE (run strip file evs))) eqn:Hl.
  - injection He as <-.
    destruct (run_published strip file evs) as [H | H]; [ | exact H ].
    rewrite H in Hl. discriminate.
  - destruct (disk (run strip file evs)) as [ cfg | ] eqn:Hd;
      [ | discriminate ].
    destruct (calibrate cfg) as [ cal | e ] eqn:Hc; [ | discriminate ].
    injection He as <-. cbn [STATE].
    exists evs, [], cfg, cal. rewrite app_nil_r. repeat split; assumption.
Qed.

(** X22: what the server answers always comes from one successful
    calibration of the file.  In any world a run can reach, when
    /api/compute answers, the cache is loaded and is exactly what the
    calibration of the configuration file published, the file being as it
    stood at some moment of the run, and the answer echoes the two biases
    of that calibration: never the module-level defaults of the unloaded
    cache.  Likewise the calibration answered by GET /api/config is that
    of the file at some moment of the run, with "n_points" at least 2 (the
    default 0 is never shown). *)
Theorem answers_come_from_a_calibration
    (strip : string -> string) (file : option Config) (evs : list event)
    (payload : Payload) :
  let w := run strip file evs in
  match api_compute_point payload w with
  | (Ok r, w') =>
      loaded (STATE w') = true /\
      exists (evs1 evs2 : list event) (cfg : Config)
             (cal : CalibrationResult),
        evs = evs1 ++ evs2 /\
        disk (run strip file evs1) = Some cfg /\
        calibrate cfg = Ok cal /\
        STATE w' = published cal /\
        r_ajuste_ah r = ajuste_ah cal /\ r_ajuste_av r = ajuste_av cal
  | (Raise _, _) => True
  end /\
  match api_get_config w with
  | (Ok (cfg, v), w') =>
      disk w = Some cfg /\ (2 <= v_n_points v)%nat /\
      loaded (STATE w') = true /\
      exists (evs1 evs2 : list event) (cfg0 : Config)
             (cal : CalibrationResult),
        evs = evs1 ++ evs2 /\
        disk (run strip file evs1) = Some cfg0 /\
        calibrate cfg0 = Ok cal /\
        STATE w' = published cal /\
        shows v cal
  | (Raise _, _) => True
  end.
Proof.
  cbv zeta. split.
  - destruct (api_compute_point payload (run strip file evs))
      as [[ r | e ] w'] eqn:H; [ | exact I ].
    destruct (api_compute_point_ok _ _ _ _ H) as [Hl [Hah Hav]].
    split; [ exact Hl | ].
    assert (Hw' : w' = snd (ensure_state (run strip file evs))).
    { rewrite <- api_compute_point_world with (payload := payload).
      rewrite H. reflexivity. }
    destruct (ensure_state (run strip file evs)) as [[ [] | e ] w1] eqn:He.
    + cbn [snd] in Hw'. subst w1.
      destruct (ensure_state_published_in_run _ _ _ _ He)
        as [_ [evs1 [evs2 [cfg [cal [Hevs [Hd [Hc Hst]]]]]]]].
      exists evs1, evs2, cfg, cal. rewrite Hah, Hav, Hst.
      repeat split; assumption.
    + exfalso. unfold api_compute_point in H. unfold bind at 1 in H.
      rewrite He in H. discriminate.
  - rewrite api_get_config_run.
    destruct (disk (run strip file evs)) as [ cfg | ] eqn:Hd; [ | exact I ].
    destruct (ensure_state (run strip file evs))
      as [[ [] | e ] w'] eqn:He; [ | exact I ].
    destruct (ensure_state_published_in_run _ _ _ _ He)
      as [Hl [evs1 [evs2 [cfg0 [cal [Hevs [Hd0 [Hc Hst]]]]]]]].
    split; [ reflexivity | ].
    destruct (calibrate_cases cfg0)
      as [[_ Hr] | [Hn [cal' [Hr [_ [_ [_ Hnp]]]]]]];
      rewrite Hr in Hc; [ discriminate | ].
    injection Hc as ->.
    split; [ | split; [ exact Hl | ] ].
    + rewrite Hst. cbn. rewrite Hnp. exact Hn.
    + exists evs1, evs2, cfg0, cal. rewrite Hst.
      repeat split; assumption.
Qed.

(** X23: POST /api/config validates before it writes and writes before it
    calibrates.  A payload with a required number missing or null raises
    and leaves file and cache as they were.  A complete payload is written
    to the file; if it has fewer than 2 points the calibration then raises
    and the cache stays as it was, so that file and cache now disagree;
    otherwise the cache becomes the calibration of the written
    configuration. *)
Theorem api_set_config_outcomes
    (strip : string -> string) (payload : RawConfig) (w : World) :
  match normalize_config strip payload with
  | Throw e => api_set_config strip payload w = (Throw e, w)
  | Return cfg =>
      disk (snd (api_set_config strip payload w)) = Some cfg /\
      match calibrate cfg with
      | Raise e =>
          (List.length (collimation_points cfg) < 2)%nat /\
          api_set_config strip payload w
          = (Throw (Builtin insufficient),
             {| disk := Some cfg; STATE := STATE w |})
      | Ok cal =>
          (2 <= List.length (collimation_points cfg))%nat /\
          api_set_config strip payload w
          = (Return cal, {| disk := Some cfg; STATE := published cal |})
      end
  end.
Proof.
  rewrite api_set_config_run.
  destruct (normalize_config strip payload) as [ cfg | e ]; [ | reflexivity ].
  destruct (calibrate_cases cfg) as [[Hn Hr] | [Hn [cal [Hr _]]]];
    rewrite Hr; repeat split; assumption.
Qed.

(** X24: after a configuration with fewer than 2 points has been posted to a
    server whose cache is loaded, the server keeps answering with the old
    biases: GET /api/config shows the new configuration beside the old
    calibration, /api/calibrate raises, and /api/compute reconstructs from
    the new camera position with the old biases. *)
Theorem stale_calibration_after_short_config
    (strip : string -> string) (payload : RawConfig) (cfg : Config)
    (w : World) (ah av d : R) :
  loaded (STATE w) = true ->
  normalize_config strip payload = Return cfg ->
  (List.length (collimation_points cfg) < 2)%nat ->
  let w' := snd (api_set_config strip payload w) in
  w' = {| disk := Some cfg; STATE := STATE w |} /\
  api_get_config w' = (Ok (cfg, view_of (STATE w)), w') /\
  api_calibrate w' = (Raise insufficient, w') /\
  exists r, api_compute_point (sighting ah av d) w' = (Ok r, w') /\
    AH_corr r = wrap360 (ah + st_ajuste_ah (STATE w)) /\
    AV_corr r = av + st_ajuste_av (STATE w) /\
    (r_X r, r_Y r, r_Z r)
    = calc_xyz_from_angles (camera cfg) (AH_corr r) (AV_corr r) d.
Proof.
  intros Hl Hn Hlen. cbv zeta.
  assert (Hw : snd (api_set_config strip payload w)
               = {| disk := Some cfg; STATE := STATE w |}).
  { rewrite api_set_config_run, Hn, (calibrate_raises cfg Hlen).
    reflexivity. }
  rewrite Hw. split; [ reflexivity | ]. split; [ | split ].
  - rewrite api_get_config_run. cbn [disk].
    rewrite ensure_state_loaded by exact Hl. reflexivity.
  - rewrite api_calibrate_run. cbn [disk].
    rewrite (calibrate_raises cfg Hlen). reflexivity.
  - eexists. split.
    + apply api_compute_point_run. exact Hl.
    + cbn. repeat split.
Qed.

(** ** Normalising a configuration *)

Lemma normalize_name_nonempty (strip : string -> string) (n : option string) :
  normalize_name strip n <> EmptyString.
Proof.
  unfold normalize_name. cbv zeta.
  destruct (String.eqb_spec (strip match n with
                                   | Some s => s
                                   | None => EmptyString
                                   end) EmptyString) as [ Heq | H ];
    [ discriminate | exact H ].
Qed.

Lemma required_outcome (key : string) (m : member) :
  In key numeric_keys ->
  match required key m with
  | Return x => m = Present (Some x)
  | Throw e => holds_number m = false /\ raised_by_validation e
  end.
Proof.
  intros Hk. destruct m as [ | [ x | ] ]; cbn.
  - split; [ reflexivity | ]. left. exists key. split; [ reflexivity | exact Hk ].
  - reflexivity.
  - split; [ reflexivity | ]. right. reflexivity.
Qed.

Lemma with_default_0_outcome (m : member) :
  match with_default_0 m with
  | Return x => absent_or_number m = true
  | Throw e => absent_or_number m = false /\ raised_by_validation e
  end.
Proof.
  destruct m as [ | [ x | ] ]; cbn; try reflexivity.
  split; [ reflexivity | ]. right. reflexivity.
Qed.

Ltac key_in := unfold numeric_keys; simpl; tauto.

Ltac step_required H key m :=
  pose proof (required_outcome key m ltac:(key_in)) as H;
  destruct (required key m);
  [ rewrite H; cbn [holds_number andb]
  | destruct H as [H ?]; rewrite H, ?andb_false_r; cbn [andb];
    split; [ reflexivity | assumption ] ].

Lemma normalize_point_outcome (strip : string -> string) (p : RawPoint) :
  match normalize_point strip p with
  | Return pt =>
      complete_point p = true /\
      name pt = normalize_name strip (raw_name p) /\
      raw_pX p = Present (Some (pX pt)) /\
      raw_pY p = Present (Some (pY pt)) /\
      raw_pZ p = Present (Some (pZ pt)) /\
      raw_AH_obs p = Present (Some (AH_obs pt)) /\
      raw_AV_obs p = Present (Some (AV_obs pt)) /\
      (exists d, D_obs pt = Some d /\
         (raw_D_obs p = Absent /\ d = 0 \/ raw_D_obs p = Present (Some d)))
  | Throw e => complete_point p = false /\ raised_by_validation e
  end.
Proof.
  unfold normalize_point, complete_point.
  step_required HX "X"%string (raw_pX p).
  step_required HY "Y"%string (raw_pY p).
  step_required HZ "Z"%string (raw_pZ p).
  step_required HA "AH_obs"%string (raw_AH_obs p).
  step_required HV "AV_obs"%string (raw_AV_obs p).
  pose proof (with_default_0_outcome (raw_D_obs p)) as HD.
  destruct (raw_D_obs p) as [ | [ d | ] ]; cbn in *.
  - repeat split. exists 0. split; [ reflexivity | left; split; reflexivity ].
  - repeat split. exists d. split; [ reflexivity | right; reflexivity ].
  - exact HD.
Qed.

Lemma normalize_points_outcome (strip : string -> string)
    (pts : list RawPoint) :
  match normalize_points strip pts with
  | Return l =>
      forallb complete_point pts = true /\
      Forall2 (fun p pt => normalize_point strip p = Return pt) pts l
  | Throw e => forallb complete_point pts = false /\ raised_by_validation e
  end.
Proof.
  induction pts as [ | p pts IH ]; cbn [normalize_points forallb].
  - split; [ reflexivity | constructor ].
  - pose proof (normalize_point_outcome strip p) as Hp.
    destruct (normalize_point strip p) as [ pt | e ] eqn:Hpt.
    + destruct Hp as [Hc _]. rewrite Hc. cbn [andb].
      destruct (normalize_points strip pts) as [ l | e ].
      * destruct IH as [Hall Hf]. split; [ exact Hall | ].
        constructor; assumption.
      * exact IH.
    + destruct Hp as [Hc He]. rewrite Hc. split; [ reflexivity | exact He ].
Qed.

Lemma normalize_config_spec
    (strip : string -> string) (raw : RawConfig) :
  match normalize_config strip raw with
  | Return cfg =>
      complete_config raw = true /\
      raw_camera raw
      = Some {| raw_X := Present (Some (pX (camera cfg)));
                raw_Y := Present (Some (pY (camera cfg)));
                raw_Z := Present (Some (pZ (camera cfg))) |} /\
      Forall2 (fun p pt =>
                 name pt = normalize_name strip (raw_name p) /\
                 name pt <> EmptyString /\
                 raw_pX p = Present (Some (pX pt)) /\
                 raw_pY p = Present (Some (pY pt)) /\
                 raw_pZ p = Present (Some (pZ pt)) /\
                 raw_AH_obs p = Present (Some (AH_obs pt)) /\
                 raw_AV_obs p = Present (Some (AV_obs pt)) /\
                 exists d, D_obs pt = Some d /\
                   (raw_D_obs p = Absent /\ d = 0 \/
                    raw_D_obs p = Present (Some d)))
              (match raw_points raw with Some l => l | None => [] end)
              (collimation_points cfg)
  | Throw e => complete_config raw = false /\ raised_by_validation e
  end.
Proof.
  unfold normalize_config, complete_config.
  destruct (raw_camera raw) as [ [mx my mz] | ]; cbn [raw_X raw_Y raw_Z].
  - step_required HX "X"%string mx.
    step_required HY "Y"%string my.
    step_required HZ "Z"%string mz.
    pose proof (normalize_points_outcome strip
                  (match raw_points raw with Some l => l | None => [] end))
      as Hp.
    destruct (normalize_points strip _) as [ l | e ]; [ | exact Hp ].
    destruct Hp as [Hall Hf]. rewrite Hall.
    cbn [camera collimation_points pX pY pZ].
    repeat split.
    clear Hall. induction Hf as [ | p pt ps l' Hpt _ IH ]; constructor;
      [ | exact IH ].
    pose proof (normalize_point_outcome strip p) as Ho. rewrite Hpt in Ho.
    destruct Ho as [_ [Hn Hrest]].
    split; [ exact Hn | ]. split; [ | exact Hrest ].
    rewrite Hn. apply normalize_name_nonempty.
  - cbn. split; [ reflexivity | ].
    left. exists "X"%string. split; [ reflexivity | key_in ].
Qed.

(** X25: for a configuration whose numeric members are each absent, null
    or a number within the range of [float] (strings and integers beyond
    that range are left out): normalising succeeds exactly when the camera
    has its three numbers and every point has X, Y, Z, AH_obs and AV_obs
    as numbers and "D_obs" absent or a number.  It then keeps the points in order with their
    numbers, gives every point a non-empty name ("PT" when the name is
    absent or blank) and a "D_obs" (0 when absent).  Otherwise it raises
    KeyError on one of the five numeric keys, or the ValueError of an
    empty number. *)
Theorem normalize_config_outcome
    (strip : string -> string) (raw : RawConfig) :
  match normalize_config strip raw with
  | Return cfg =>
      complete_config raw = true /\
      raw_camera raw
      = Some {| raw_X := Present (Some (pX (camera cfg)));
                raw_Y := Present (Some (pY (camera cfg)));
                raw_Z := Present (Some (pZ (camera cfg))) |} /\
      Forall2 (fun p pt =>
                 name pt = normalize_name strip (raw_name p) /\
                 name pt <> EmptyString /\
                 raw_pX p = Present (Some (pX pt)) /\
                 raw_pY p = Present (Some (pY pt)) /\
                 raw_pZ p = Present (Some (pZ pt)) /\
                 raw_AH_obs p = Present (Some (AH_obs pt)) /\
                 raw_AV_obs p = Present (Some (AV_obs pt)) /\
                 exists d, D_obs pt = Some d /\
                   (raw_D_obs p = Absent /\ d = 0 \/
                    raw_D_obs p = Present (Some d)))
              (match raw_points raw with Some l => l | None => [] end)
              (collimation_points cfg)
  | Throw e => complete_config raw = false /\ raised_by_validation e
  end.
Proof. exact (normalize_config_spec strip raw). Qed.

Lemma normalize_raw_of_point (strip : string -> string) (pt : ColPoint) :
  normalize_point strip (raw_of_point pt) = Return (renormalized strip pt).
Proof.
  unfold normalize_point, raw_of_point, renormalized, get_D_obs. cbn.
  destruct (D_obs pt); reflexivity.
Qed.

Lemma normalize_raw_of_points (strip : string -> string)
    (pts : list ColPoint) :
  normalize_points strip (map raw_of_point pts)
  = Return (map (renormalized strip) pts).
Proof.
  induction pts as [ | pt pts IH ]; [ reflexivity | ].
  cbn [map normalize_points].
  rewrite normalize_raw_of_point, IH. reflexivity.
Qed.

Lemma normalize_raw_of_config (strip : string -> string) (cfg : Config) :
  normalize_config strip (raw_of_config cfg)
  = Return {| camera := camera cfg;
              collimation_points :=
                map (renormalized strip) (collimation_points cfg) |}.
Proof.
  unfold normalize_config, raw_of_config. cbn.
  rewrite normalize_raw_of_points. destruct (camera cfg). reflexivity.
Qed.

Lemma renormalized_fixed (strip : string -> string) (pt : ColPoint) :
  normalize_name strip (Some (name pt)) = name pt ->
  D_obs pt <> None ->
  renormalized strip pt = pt.
Proof.
  intros Hn Hd. unfold renormalized, get_D_obs. rewrite Hn.
  destruct pt as [n [x y z] ah av [ d | ]]; cbn in *;
    [ reflexivity | contradiction ].
Qed.

Lemma normalize_name_idempotent (strip : string -> string)
    (n : option string) :
  (forall s, strip (strip s) = strip s) ->
  strip "PT"%string = "PT"%string ->
  normalize_name strip (Some (normalize_name strip n))
  = normalize_name strip n.
Proof.
  intros Hidem Hpt. unfold normalize_name. cbv zeta.
  set (s := match n with Some s => s | None => EmptyString end).
  destruct (String.eqb_spec (strip s) EmptyString) as [ He | Hne ].
  - rewrite Hpt. reflexivity.
  - rewrite Hidem.
    destruct (String.eqb_spec (strip s) EmptyString);
      [ contradiction | reflexivity ].
Qed.

(** X26: the file form of a configuration never fails to normalise: reading
    back what was written gives the same camera and the same points, with
    the names normalised and an absent "D_obs" filled with 0.  And since
    stripping twice is stripping once, normalising what a normalisation
    returned changes nothing: [load_config] returns exactly what
    [save_config] wrote. *)
Theorem normalize_config_roundtrip
    (strip : string -> string) (raw : RawConfig) (cfg : Config) :
  (forall s, strip (strip s) = strip s) ->
  strip "PT"%string = "PT"%string ->
  normalize_config strip raw = Return cfg ->
  normalize_config strip (raw_of_config cfg) = Return cfg /\
  forall cfg0 : Config,
    normalize_config strip (raw_of_config cfg0)
    = Return {| camera := camera cfg0;
                collimation_points :=
                  map (renormalized strip) (collimation_points cfg0) |}.
Proof.
  intros Hidem Hpt Hn. split; [ | apply normalize_raw_of_config ].
  rewrite normalize_raw_of_config.
  pose proof (normalize_config_spec strip raw) as Ho. rewrite Hn in Ho.
  destruct Ho as [_ [_ Hf]]. clear Hn. f_equal.
  destruct cfg as [cam pts]. cbn [camera collimation_points] in *.
  f_equal.
  induction Hf as [ | p pt ps l Hp _ IH ]; [ reflexivity | ].
  cbn [map]. rewrite IH. f_equal.
  destruct Hp as [Hname [_ [_ [_ [_ [_ [_ [d [Hd _]]]]]]]]].
  apply renormalized_fixed.
  - rewrite Hname. apply normalize_name_idempotent; assumption.
  - rewrite Hd. discriminate.
Qed.

(** ** The concrete [strip] *)

Lemma rstrip_head (c : ascii) (s : string) :
  is_space c = false -> rstrip (String c s) = String c (rstrip s).
Proof.
  intros Hc. cbn [rstrip]. destruct (rstrip s); [ rewrite Hc | ]; reflexivity.
Qed.

Lemma rstrip_cons (c d : ascii) (s r : string) :
  rstrip s = String d r -> rstrip (String c s) = String c (String d r).
Proof. intros H. cbn [rstrip]. rewrite H. reflexivity. Qed.

Lemma rstrip_idempotent (s : string) : rstrip (rstrip s) = rstrip s.
Proof.
  induction s as [ | c s IH ]; [ reflexivity | ].
  destruct (rstrip s) as [ | d r ] eqn:Hr.
  - cbn [rstrip]. rewrite Hr.
    destruct (is_space c) eqn:Hc; [ reflexivity | ].
    cbn [rstrip]. rewrite Hc. reflexivity.
  - rewrite (rstrip_cons c d s r Hr).
    apply rstrip_cons. exact IH.
Qed.

Lemma lstrip_head (s : string) :
  lstrip s = EmptyString \/
  exists c s', lstrip s = String c s' /\ is_space c = false.
Proof.
  induction s as [ | c s IH ]; [ left; reflexivity | ].
  cbn [lstrip]. destruct (is_space c) eqn:Hc; [ exact IH | ].
  right. exists c, s. split; [ reflexivity | exact Hc ].
Qed.

Lemma ascii_strip_idempotent (s : string) :
  ascii_strip (ascii_strip s) = ascii_strip s.
Proof.
  unfold ascii_strip.
  destruct (lstrip_head s) as [-> | [c [s' [-> Hc]]]]; [ reflexivity | ].
  rewrite (rstrip_head c s' Hc). cbn [lstrip]. rewrite Hc.
  rewrite <- (rstrip_head c s' Hc). apply rstrip_idempotent.
Qed.

Lemma normalize_config_roundtrip_example :
  normalize_config ascii_strip (raw_of_config cfg_of_raw_one_point)
  = Return cfg_of_raw_one_point /\
  forall cfg0 : Config,
    normalize_config ascii_strip (raw_of_config cfg0)
    = Return {| camera := camera cfg0;
                collimation_points :=
                  map (renormalized ascii_strip) (collimation_points cfg0) |}.
Proof.
  apply (normalize_config_roundtrip ascii_strip raw_one_point
           cfg_of_raw_one_point ascii_strip_idempotent).
  - reflexivity.
  - reflexivity.
Defined.

(** ** The name of the exported file *)

Lemma lower_app (a b : string) :
  lower (a ++ b) = (lower a ++ lower b)%string.
Proof.
  induction a as [ | c a IH ]; [ reflexivity | ].
  cbn [append lower]. rewrite IH. reflexivity.
Qed.

Lemma endswith_app (a b : string) : endswith (a ++ b) b = true.
Proof.
  induction a as [ | c a IH ].
  - cbn [append]. destruct b; cbn [endswith]; rewrite String.eqb_refl;
      reflexivity.
  - cbn [append endswith].
    destruct (String.eqb (String c (a ++ b)) b); [ reflexivity | exact IH ].
Qed.

(** X27: the name under which /api/export offers the file always ends in
    ".txt" (in any letter case): a requested name that already ends so is
    kept as it is, any other gets ".txt" appended, and the default is
    "puntos_calculados.txt"; choosing the name again changes nothing. *)
Theorem export_filename_txt (requested : option string) :
  let f := export_filename requested in
  endswith (lower f) ".txt" = true /\
  export_filename (Some f) = f /\
  export_filename None = "puntos_calculados.txt"%string /\
  match requested with
  | Some s =>
      if endswith (lower s) ".txt" then f = s else f = (s ++ ".txt")%string
  | None => True
  end.
Proof.
  cbv zeta.
  assert (H : forall req, endswith (lower (export_filename req)) ".txt"
                          = true).
  { intros req. unfold export_filename. cbv zeta.
    set (s := match req with
              | Some f => f
              | None => "puntos_calculados.txt"%string
              end).
    destruct (endswith (lower s) ".txt") eqn:He; cbn [negb].
    - exact He.
    - rewrite lower_app. apply endswith_app. }
  split; [ apply H | ]. split; [ | split ].
  - unfold export_filename at 1. cbv zeta. rewrite H. reflexivity.
  - reflexivity.
  - destruct requested as [ s | ]; [ | exact I ].
    unfold export_filename. cbv zeta.
    destruct (endswith (lower s) ".txt"); reflexivity.
Qed.

Lemma stale_calibration_after_short_config_example :
  let w := {| disk := Some cfg_end_to_end; STATE := st_published |} in
  let w' := snd (api_set_config ascii_strip raw_one_point w) in
  w' = {| disk := Some cfg_of_raw_one_point; STATE := st_published |} /\
  api_get_config w' = (Ok (cfg_of_raw_one_point, view_of st_published), w') /\
  api_calibrate w' = (Raise insufficient, w') /\
  exists r, api_compute_point (sighting 1 0 50) w' = (Ok r, w') /\
    AH_corr r = wrap360 (1 + st_ajuste_ah st_published) /\
    AV_corr r = 0 + st_ajuste_av st_published /\
    (r_X r, r_Y r, r_Z r)
    = calc_xyz_from_angles (camera cfg_of_raw_one_point)
        (AH_corr r) (AV_corr r) 50.
Proof.
  apply (stale_calibration_after_short_config ascii_strip raw_one_point
           cfg_of_raw_one_point
           {| disk := Some cfg_end_to_end; STATE := st_published |} 1 0 50).
  - reflexivity.
  - reflexivity.
  - simpl. lia.
Defined.
